(** * logchange: the response cache, the rate limiter and the summarizer

    A shallow embedding of [scripts/cache_utils.py] ([APICache],
    [RateLimiter]) and of the per-commit summarization of
    [src/logchange/ai_summarizer.py] and [src/logchange/cli.py], followed by
    the properties the specification states about them.

    Conventions of the embedding.
    - Python code that can raise is a computation in a state-and-exception
      monad: it maps the state it mutates to an [outcome] and the state it
      leaves behind, which is the state at the point of the [raise] when it
      raises.
    - [time.time()] is an argument of each operation that reads the clock;
      times are exact rationals.
    - [hashlib.sha256] is implemented (FIPS 180-4) over the bytes of the
      string, so cache keys are the 64 hexadecimal digits the program
      computes.
    - The body of a cache file is what [json.load] makes of it: either the
      text is rejected ([JSONDecodeError]) or it is some JSON document. *)

From Stdlib Require Import NArith ZArith QArith Qminmax List String Ascii Lia Lqa.
From stdpp Require Import gmap strings list fin_maps.

(** ** Python outcomes *)

Module Py.

(** The exception classes that occur in the modelled code.  The three
    provider failures stand for the client library's connection,
    authentication and quota errors. *)
Inductive exn : Type :=
| OSError
| JSONDecodeError
| KeyError
| TypeError
| ValueError
| IndexError
| AttributeError
| APIConnectionError
| AuthenticationError
| RateLimitError
| KeyboardInterrupt.

(** [isinstance(e, Exception)]: everything above but [KeyboardInterrupt],
    which derives from [BaseException] only. *)
Definition is_Exception (e : exn) : bool :=
  match e with
  | KeyboardInterrupt => false
  | _ => true
  end.

Inductive outcome (A : Type) : Type :=
| Return (a : A)
| Raise (e : exn).
Arguments Return {A} a.
Arguments Raise {A} e.

(** A computation over a mutable state [S]. *)
Definition io (S A : Type) : Type := S -> outcome A * S.

Definition ret {S A} (a : A) : io S A := fun s => (Return a, s).
Definition raise {S A} (e : exn) : io S A := fun s => (Raise e, s).

Definition bind {S A B} (m : io S A) (k : A -> io S B) : io S B :=
  fun s =>
    match m s with
    | (Return a, s') => k a s'
    | (Raise e, s') => (Raise e, s')
    end.

(** [try: m  except <classes>: h]: the handler runs, on the state the body
    left, for the exceptions [catches] selects; the others propagate. *)
Definition try_except {S A} (m : io S A) (catches : exn -> bool) (h : exn -> io S A)
  : io S A :=
  fun s =>
    match m s with
    | (Return a, s') => (Return a, s')
    | (Raise e, s') => if catches e then h e s' else (Raise e, s')
    end.

(** The current state (the object [self], the directory). *)
Definition get_state {S} : io S S := fun s => (Return s, s).

(** A pure step that may raise. *)
Definition lift {S A} (o : outcome A) : io S A := fun s => (o, s).

(** [for x in xs: acc = body(x, acc)] *)
Fixpoint for_each {S A B} (xs : list A) (body : A -> B -> io S B) (acc : B) : io S B :=
  match xs with
  | [] => ret acc
  | x :: rest => bind (body x acc) (for_each rest body)
  end.

End Py.

Import Py.

Declare Scope io_scope.
Delimit Scope io_scope with io.
Notation "x <- m ;; k" := (bind m (fun x => k))
  (at level 100, m at next level, right associativity) : io_scope.
Notation "m ;;; k" := (bind m (fun _ => k))
  (at level 100, right associativity) : io_scope.

(** ** SHA-256 *)

Module Sha256.

Local Open Scope N_scope.

Definition mask32 : N := 0xffffffff.
Definition add32 (x y : N) : N := N.land (x + y) mask32.
Definition rotr (n x : N) : N :=
  N.lor (N.shiftr x n) (N.land (N.shiftl x (32 - n)) mask32).
Definition not32 (x : N) : N := N.lxor x mask32.

Definition ch (x y z : N) : N := N.lxor (N.land x y) (N.land (not32 x) z).
Definition maj (x y z : N) : N :=
  N.lxor (N.lxor (N.land x y) (N.land x z)) (N.land y z).
Definition bsig0 (x : N) : N := N.lxor (N.lxor (rotr 2 x) (rotr 13 x)) (rotr 22 x).
Definition bsig1 (x : N) : N := N.lxor (N.lxor (rotr 6 x) (rotr 11 x)) (rotr 25 x).
Definition ssig0 (x : N) : N := N.lxor (N.lxor (rotr 7 x) (rotr 18 x)) (N.shiftr x 3).
Definition ssig1 (x : N) : N := N.lxor (N.lxor (rotr 17 x) (rotr 19 x)) (N.shiftr x 10).

(** The constants of the standard: the first 32 bits of the fractional parts
    of the cube roots of the first 64 primes, and of the square roots of the
    first 8. *)
Definition is_prime (n : nat) : bool :=
  forallb (fun d => negb (n mod d =? 0)%nat) (seq 2 (n - 2)).

Definition primes : list N := map N.of_nat (List.filter is_prime (seq 2 310)).

Fixpoint cube_root (bits : nat) (n root : N) : N :=
  match bits with
  | O => root
  | S bits' =>
      let next := root + 2 ^ N.of_nat bits' in
      cube_root bits' n (if next * next * next <=? n then next else root)
  end.

Definition K : list N :=
  map (fun p => N.land (cube_root 36 (p * 2 ^ 96) 0) mask32) primes.

Definition H0 : list N :=
  map (fun p => N.land (N.sqrt (p * 2 ^ 64)) mask32) (firstn 8 primes).

(** [key_str.encode()]: a [string] is the sequence of its UTF-8 bytes. *)
Definition bytes_of (s : string) : list N := map N_of_ascii (list_ascii_of_string s).

Definition be_bytes (width : nat) (x : N) : list N :=
  map (fun i => N.land (N.shiftr x (8 * N.of_nat i)) 0xff) (rev (seq 0 width)).

(** One [0x80] byte, zeros up to 56 modulo 64, the bit length on 8 bytes. *)
Definition pad (msg : list N) : list N :=
  let len := N.of_nat (List.length msg) in
  let zeros := N.to_nat ((119 - len mod 64) mod 64) in
  msg ++ [0x80] ++ repeat 0 zeros ++ be_bytes 8 (8 * len).

Fixpoint words_of (bs : list N) : list N :=
  match bs with
  | b0 :: b1 :: b2 :: b3 :: rest =>
      (N.shiftl b0 24 + N.shiftl b1 16 + N.shiftl b2 8 + b3) :: words_of rest
  | _ => []
  end.

Fixpoint blocks_of (fuel : nat) (ws : list N) : list (list N) :=
  match fuel, ws with
  | S fuel', _ :: _ => firstn 16 ws :: blocks_of fuel' (skipn 16 ws)
  | _, _ => []
  end.

(** The message schedule: [n] more words after the ones in [w]. *)
Fixpoint schedule (n : nat) (w : list N) : list N :=
  match n with
  | O => w
  | S n' =>
      let t := List.length w in
      let back (i : nat) := nth (t - i) w 0 in
      schedule n' (w ++ [add32 (add32 (ssig1 (back 2%nat)) (back 7%nat))
                                (add32 (ssig0 (back 15%nat)) (back 16%nat))])
  end.

Definition round (st : list N) (kw : N * N) : list N :=
  match st with
  | [a; b; c; d; e; f; g; h] =>
      let t1 := add32 (add32 (add32 h (bsig1 e)) (add32 (ch e f g) (fst kw))) (snd kw) in
      let t2 := add32 (bsig0 a) (maj a b c) in
      [add32 t1 t2; a; b; c; add32 d t1; e; f; g]
  | _ => st
  end.

Definition compress (h : list N) (block : list N) : list N :=
  let w := schedule 48 block in
  map (fun p => add32 (fst p) (snd p)) (combine h (fold_left round (combine K w) h)).

Definition digest_words (s : string) : list N :=
  let ws := words_of (pad (bytes_of s)) in
  fold_left compress (blocks_of (List.length ws) ws) H0.

Definition hex_digit (d : N) : ascii :=
  ascii_of_N (if d <? 10 then 48 + d else 87 + d).

Definition hex_word (x : N) : list ascii :=
  map (fun i => hex_digit (N.land (N.shiftr x (4 * N.of_nat i)) 0xf)) (rev (seq 0 8)).

(** [hashlib.sha256(b).hexdigest()] *)
Definition hexdigest (s : string) : string :=
  string_of_list_ascii (flat_map hex_word (digest_words s)).

End Sha256.

(** ** Rational comparisons, as booleans *)

Definition Qltb (x y : Q) : bool := negb (Qle_bool y x).

(** ** JSON documents and the Python operations applied to them *)

Module Json.

(** What [json.load] returns.  A number is an [int] or a [float]; an object
    is a [dict], listed in the order of the text. *)
#[local] Unset Elimination Schemes.
Inductive value : Type :=
| Null
| Bool (b : bool)
| Num (x : Q)
| Str (s : string)
| Arr (xs : list value)
| Obj (items : list (string * value)).
#[local] Set Elimination Schemes.

(** The [dict] keeps the last binding of a repeated key. *)
Definition dict_get (k : string) (items : list (string * value)) : option value :=
  fold_left (fun acc kv => if String.eqb (fst kv) k then Some (snd kv) else acc)
            items None.

(** [d[k]] for a string [k]: [KeyError] on a [dict] without the key,
    [TypeError] on anything that is not a [dict] (a list or a string takes
    integer indices, the others are not subscriptable). *)
Definition getitem (d : value) (k : string) : outcome value :=
  match d with
  | Obj items =>
      match dict_get k items with
      | Some v => Return v
      | None => Raise KeyError
      end
  | _ => Raise TypeError
  end.

(** [x - v] for a float [x]: defined on numbers, and on booleans, which are
    the integers 0 and 1; [TypeError] otherwise. *)
Definition rsub (x : Q) (v : value) : outcome Q :=
  match v with
  | Num y => Return (x - y)%Q
  | Bool b => Return (x - (if b then 1 else 0))%Q
  | _ => Raise TypeError
  end.

End Json.

(** ** The response cache *)

Module APICache.

(** The body of a file of the cache directory, as [json.load] sees it. *)
Inductive body : Type :=
| Garbled                      (* text that is not JSON: JSONDecodeError *)
| Document (v : Json.value).

(** The files of the cache directory, by name.  A file that is there can be
    read and removed; whether a file can be created or overwritten is up to
    the operating system and is an argument of [set]. *)
Abbreviation files := (gmap string body).

Record t : Type := { cache_dir : string; ttl_seconds : Q }.

(** *** Primitive file operations *)

Definition path_exists (path : string) : io files bool :=
  fun fs => (Return (bool_decide (is_Some (fs !! path))), fs).

(** [path.open("r")] followed by reading the whole file *)
Definition open_read (path : string) : io files body :=
  fun fs =>
    match fs !! path with
    | Some b => (Return b, fs)
    | None => (Raise OSError, fs)          (* FileNotFoundError *)
    end.

Definition json_load (b : body) : outcome Json.value :=
  match b with
  | Garbled => Raise JSONDecodeError
  | Document v => Return v
  end.

Definition unlink (path : string) : io files unit :=
  fun fs =>
    match fs !! path with
    | Some _ => (Return tt, delete path fs)
    | None => (Raise OSError, fs)          (* FileNotFoundError *)
    end.

(** [path.open("w")] and [json.dump]; [granted] tells whether the operating
    system lets the file be opened for writing. *)
Definition open_write (granted : bool) (path : string) (b : body) : io files unit :=
  fun fs =>
    if granted then (Return tt, <[path := b]> fs) else (Raise OSError, fs).

Definition dot_json : string := ".json".

Definition ends_with (suffix s : string) : bool :=
  String.prefix (String.rev suffix) (String.rev s).

(** The names [glob("*.json")] lists, in the order the directory lists them. *)
Definition json_names (fs : files) : list string :=
  List.filter (ends_with dot_json) (map fst (map_to_list fs)).

(** [self.cache_dir.glob("*.json")] *)
Definition glob_json : io files (list string) :=
  fun fs => (Return (json_names fs), fs).

(** *** The methods *)

Definition _get_cache_key (content model style : string) : string :=
  Sha256.hexdigest (content +:+ ":" +:+ model +:+ ":" +:+ style).

Definition _get_cache_path (cache_key : string) : string :=
  cache_key +:+ dot_json.

(** The errors [except (json.JSONDecodeError, KeyError, OSError)] catches. *)
Definition corrupted (e : exn) : bool :=
  match e with
  | JSONDecodeError | KeyError | OSError => true
  | _ => false
  end.

(** [get] returns the response or [None], which is [Json.Null]. *)
Definition get (self : t) (now : Q) (content model style : string)
  : io files Json.value :=
  let cache_key := _get_cache_key content model style in
  let cache_path := _get_cache_path cache_key in
  (there <- path_exists cache_path ;;
   if negb there then ret Json.Null
   else
     try_except
       (b <- open_read cache_path ;;
        data <- lift (json_load b) ;;
        stamp <- lift (Json.getitem data "timestamp") ;;
        age <- lift (Json.rsub now stamp) ;;
        if Qltb (ttl_seconds self) age
        then (unlink cache_path ;;; ret Json.Null)
        else lift (Json.getitem data "response"))
       corrupted
       (fun _ =>
          still <- path_exists cache_path ;;
          if still then (unlink cache_path ;;; ret Json.Null)
          else ret Json.Null))%io.

Definition entry (now : Q) (response model : string) : Json.value :=
  Json.Obj [("timestamp", Json.Num now);
            ("response", Json.Str response);
            ("model", Json.Str model)]%string.

(** [set]; [granted] is the answer of the operating system to
    [cache_path.open("w")].  A refused write is swallowed. *)
Definition set (granted : bool) (self : t) (now : Q)
               (content model response style : string) : io files unit :=
  let cache_key := _get_cache_key content model style in
  let cache_path := _get_cache_path cache_key in
  let data := entry now response model in
  try_except
    (open_write granted cache_path (Document data))
    (fun e => match e with OSError => true | _ => false end)
    (fun _ => ret tt).

Definition clear (self : t) : io files nat :=
  (names <- glob_json ;;
   for_each names
     (fun cache_file count =>
        try_except
          (unlink cache_file ;;; ret (S count))
          (fun e => match e with OSError => true | _ => false end)
          (fun _ => ret count))
     O)%io.

Definition clear_expired (self : t) (current_time : Q) : io files nat :=
  (names <- glob_json ;;
   for_each names
     (fun cache_file count =>
        try_except
          (b <- open_read cache_file ;;
           data <- lift (json_load b) ;;
           stamp <- lift (Json.getitem data "timestamp") ;;
           age <- lift (Json.rsub current_time stamp) ;;
           if Qltb (ttl_seconds self) age
           then (unlink cache_file ;;; ret (S count))
           else ret count)
          corrupted
          (fun _ => unlink cache_file ;;; ret (S count)))
     O)%io.

(** *** What the sweep decides about a file

    The [try] block of [clear_expired] on the body of one file: the age test
    when the body is a record with a timestamp, or the error that reading it
    raises. *)
Definition past_ttl (self : t) (now : Q) (b : body) : outcome bool :=
  match json_load b with
  | Raise e => Raise e
  | Return data =>
      match Json.getitem data "timestamp" with
      | Raise e => Raise e
      | Return stamp =>
          match Json.rsub now stamp with
          | Raise e => Raise e
          | Return age => Return (Qltb (ttl_seconds self) age)
          end
      end
  end.

(** The file goes: it is past its time-to-live, or reading it raises one of
    the errors the handler takes for a corrupted file. *)
Definition swept (self : t) (now : Q) (b : body) : bool :=
  match past_ttl self now b with
  | Return gone => gone
  | Raise e => corrupted e
  end.

(** Reading the file raises nothing the handler lets through. *)
Definition handled (self : t) (now : Q) (b : body) : Prop :=
  match past_ttl self now b with
  | Return _ => True
  | Raise e => corrupted e = true
  end.

(** A record with a numeric timestamp: an entry that has an age. *)
Definition stamped (b : body) (stamp : Q) : Prop :=
  exists d : Json.value,
    b = Document d /\ Json.getitem d "timestamp" = Return (Json.Num stamp).

(** A file that cannot be read as an entry: its text is not JSON, or it is a
    record without a timestamp. *)
Definition unparsable (b : body) : Prop :=
  b = Garbled
  \/ exists d : Json.value,
       b = Document d /\ Json.getitem d "timestamp" = Raise KeyError.

(** *** The constructor and the host project's directory

    [__init__] works in the current directory of the process: it creates
    the cache directory and registers it in [.gitignore].  Here the
    operating system can refuse an operation: a file can be unreadable or
    unwritable, and the directory can refuse new entries. *)

Record textfile : Type := { text : string; readable : bool; writable : bool }.

Inductive node : Type :=
| Directory
| File (f : textfile).

Record hostdir : Type := { nodes : gmap string node; may_create : bool }.

Definition newline : string := String (ascii_of_nat 10) EmptyString.

Definition with_nodes (h : hostdir) (ns : gmap string node) : hostdir :=
  {| nodes := ns; may_create := may_create h |}.

(** [Path(name).mkdir(exist_ok=True)] *)
Definition mkdir_exist_ok (name : string) : io hostdir unit :=
  fun h =>
    match nodes h !! name with
    | Some Directory => (Return tt, h)
    | Some (File _) => (Raise OSError, h)          (* FileExistsError *)
    | None =>
        if may_create h then (Return tt, with_nodes h (<[name := Directory]> (nodes h)))
        else (Raise OSError, h)                    (* PermissionError *)
    end.

Definition host_exists (name : string) : io hostdir bool :=
  fun h => (Return (bool_decide (is_Some (nodes h !! name))), h).

Definition read_text (name : string) : io hostdir string :=
  fun h =>
    match nodes h !! name with
    | Some (File f) => if readable f then (Return (text f), h) else (Raise OSError, h)
    | _ => (Raise OSError, h)
    end.

(** [with path.open("a") as f: f.write(s)] *)
Definition append_text (name s : string) : io hostdir unit :=
  fun h =>
    match nodes h !! name with
    | Some (File f) =>
        if writable f
        then (Return tt,
              with_nodes h (<[name := File {| text := text f +:+ s;
                                              readable := readable f;
                                              writable := writable f |}]> (nodes h)))
        else (Raise OSError, h)
    | Some Directory => (Raise OSError, h)
    | None =>
        if may_create h
        then (Return tt,
              with_nodes h (<[name := File {| text := s; readable := true;
                                              writable := true |}]> (nodes h)))
        else (Raise OSError, h)
    end.

Definition write_text (name s : string) : io hostdir unit :=
  fun h =>
    match nodes h !! name with
    | Some (File f) =>
        if writable f
        then (Return tt,
              with_nodes h (<[name := File {| text := s; readable := readable f;
                                              writable := writable f |}]> (nodes h)))
        else (Raise OSError, h)
    | Some Directory => (Raise OSError, h)
    | None =>
        if may_create h
        then (Return tt,
              with_nodes h (<[name := File {| text := s; readable := true;
                                              writable := true |}]> (nodes h)))
        else (Raise OSError, h)
    end.

(** [needle in hay] *)
Fixpoint contains (needle hay : string) : bool :=
  if String.prefix needle hay then true
  else match hay with
       | EmptyString => false
       | String _ rest => contains needle rest
       end.

Definition gitignore : string := ".gitignore".

(** A project directory that holds the cache directory and a [.gitignore]
    file. *)
Definition project_with (cache_dir : string) (ignore_file : textfile) : hostdir :=
  {| nodes := <[gitignore := File ignore_file]> (<[cache_dir := Directory]> ∅);
     may_create := true |}.

(** The lines of [__init__] under [# Add to .gitignore if it doesn't exist]. *)
Definition add_to_gitignore (cache_dir : string) : io hostdir unit :=
  (there <- host_exists gitignore ;;
   if there
   then content <- read_text gitignore ;;
        if negb (contains cache_dir content)
        then append_text gitignore (newline +:+ cache_dir +:+ "/" +:+ newline)
        else ret tt
   else write_text gitignore (cache_dir +:+ "/" +:+ newline))%io.

Definition __init__ (cache_dir : string) (ttl_seconds : Q) : io hostdir t :=
  (mkdir_exist_ok cache_dir ;;;
   add_to_gitignore cache_dir ;;;
   ret {| cache_dir := cache_dir; ttl_seconds := ttl_seconds |})%io.

End APICache.

(** ** The rate limiter *)

Module RateLimiter.

Record t : Type := { max_calls : Z; calls : list Q }.

Definition __init__ (max_calls_per_minute : Z) : t :=
  {| max_calls := max_calls_per_minute; calls := [] |}.

Definition with_calls (self : t) (cs : list Q) : t :=
  {| max_calls := max_calls self; calls := cs |}.

Definition smaller (m y : Q) : Q := if Qltb y m then y else m.

(** [min(xs)]: the first of the smallest elements; [ValueError] on an empty
    sequence. *)
Definition py_min (xs : list Q) : outcome Q :=
  match xs with
  | [] => Raise ValueError
  | x :: rest => Return (fold_left smaller rest x)
  end.

Definition set_calls (cs : list Q) : io t unit :=
  fun self => (Return tt, with_calls self cs).

Definition recent (current_time : Q) (cs : list Q) : list Q :=
  List.filter (fun c => Qltb (current_time - c) 60) cs.

(** The result is the time slept: [Some wait_time] when the call printed the
    notice and slept, [None] when it returned at once. *)
Definition wait_if_needed (current_time : Q) : io t (option Q) :=
  (self <- get_state ;;
   set_calls (recent current_time (calls self)) ;;;
   self <- get_state ;;
   slept <-
     (if (max_calls self <=? Z.of_nat (List.length (calls self)))%Z
      then
        oldest_call <- lift (py_min (calls self)) ;;
        let wait_time := (60 - (current_time - oldest_call))%Q in
        if Qltb 0 wait_time
        then (set_calls [] ;;; ret (Some wait_time))
        else ret None
      else ret None) ;;
   self <- get_state ;;
   set_calls (calls self ++ [current_time]) ;;;
   ret slept)%io.

(** The clock when the call returns. *)
Definition returned_at (current_time : Q) (slept : option Q) : Q :=
  match slept with
  | Some wait_time => current_time + wait_time
  | None => current_time
  end.

(** The limiters a program can hold: a fresh one, and what a limiter
    becomes when [wait_if_needed] returns. *)
Inductive reachable (n : Z) : t -> Prop :=
| reach_init : reachable n (__init__ n)
| reach_call (self self' : t) (now : Q) (slept : option Q) :
    reachable n self ->
    wait_if_needed now self = (Return slept, self') ->
    reachable n self'.

(** What every reachable limiter satisfies: the ceiling never changes; under
    a ceiling of at least one call the list holds at most that many calls;
    under any other ceiling no call was ever recorded. *)
Definition within_ceiling (n : Z) (self : t) : Prop :=
  max_calls self = n
  /\ ((1 <= n)%Z -> (Z.of_nat (List.length (calls self)) <= n)%Z)
  /\ ((n <= 0)%Z -> calls self = []).

(** Calls issued one after the other, at the given clock readings; the
    result lists what each one slept. *)
Fixpoint run (times : list Q) : io t (list (option Q)) :=
  match times with
  | [] => ret []
  | now :: later =>
      (slept <- wait_if_needed now ;;
       rest <- run later ;;
       ret (slept :: rest))%io
  end.

End RateLimiter.

(** ** Summarizing commits *)

Module Summarizer.

(** A commit, as the program reads it from the version-control library:
    [patches] are the decoded patches of [commit.diff(parent,
    create_patch=True)]. *)
Record commit : Type := {
  hexsha : string;
  message : string;
  patches : list string;
  committed_date : Z;
  author_name : string;
  author_email : string
}.

(** [str.isspace] on the ASCII range *)
Definition is_space (a : ascii) : bool :=
  let n := nat_of_ascii a in
  ((9 <=? n)%nat && (n <=? 13)%nat) || ((28 <=? n)%nat && (n <=? 32)%nat).

Fixpoint lstrip (s : string) : string :=
  match s with
  | String a rest => if is_space a then lstrip rest else s
  | EmptyString => EmptyString
  end.

Definition strip (s : string) : string :=
  String.rev (lstrip (String.rev (lstrip s))).

Definition get_commit_diff (c : commit) : string :=
  String.concat APICache.newline (patches c).

Definition sentinel : string := "Summary unavailable.".

Definition prompt_of (commit_message diff : string) : string :=
  String.concat APICache.newline
    [ "";
      "    You are an AI assistant creating a human-readable changelog.";
      "    Analyze the following commit details:";
      "";
      "    Commit Message:";
      "    " +:+ commit_message;
      "";
      "    Code Changes:";
      "    " +:+ String.substring 0 3000 diff +:+ "  # Truncate large diffs for efficiency";
      "";
      "    Provide a concise summary of the significant changes in plain language.";
      "    " ]%string.

Definition messages_of (prompt : string) : list (string * string) :=
  [("system", "Summarize code changes for changelogs."); ("user", prompt)]%string.

(** The prompt [summarize_commit] builds for a commit. *)
Definition prompt_for (c : commit) : string :=
  prompt_of (strip (message c)) (get_commit_diff c).

(** The error log: the abbreviated hash of the commit and the error. *)
Abbreviation log := (list (string * exn)).

Definition log_error (line : string * exn) : io log unit :=
  fun l => (Return tt, l ++ [line]).

Record info : Type := {
  hash : string;
  full_hash : string;
  info_message : string;
  date : string;
  author : string;
  email : string
}.

Record entry : Type := { commit_info : info; summary : string }.

Section Collaborators.

(** The text-generation provider: given the model, the messages (role and
    content) and the token limit, it raises or returns the [content] of
    each choice of the response ([None] for a choice without text). *)
Variable create : string -> list (string * string) -> Z -> outcome (list (option string)).

(** [datetime.fromtimestamp(d).strftime('%Y-%m-%d')], in the local time
    zone of the process. *)
Variable format_date : Z -> string.

Definition get_commit_info (c : commit) : info :=
  {| hash := String.substring 0 7 (hexsha c);
     full_hash := hexsha c;
     info_message := strip (message c);
     date := format_date (committed_date c);
     author := author_name c;
     email := author_email c |}.

Definition summarize_commit (c : commit) (model : string) (max_tokens : Z)
  : io log string :=
  let commit_message := strip (message c) in
  let diff := get_commit_diff c in
  let prompt := prompt_of commit_message diff in
  try_except
    (response <- lift (create model (messages_of prompt) max_tokens) ;;
     first <- lift (match response with
                    | [] => Raise IndexError
                    | ch :: _ => Return ch
                    end) ;;
     content <- lift (match first with
                      | None => Raise AttributeError
                      | Some txt => Return txt
                      end) ;;
     ret (strip content))%io
    is_Exception
    (fun e => (log_error (String.substring 0 7 (hexsha c), e) ;;; ret sentinel)%io).

(** The loop of [generate_changelog] that builds the entries. *)
Definition changelog_entries (commits : list commit) (model : string) (max_tokens : Z)
  : io log (list entry) :=
  for_each commits
    (fun c changelog =>
       let i := get_commit_info c in
       (s <- summarize_commit c model max_tokens ;;
        ret (changelog ++ [ {| commit_info := i; summary := s |} ]))%io)
    [].

End Collaborators.

End Summarizer.

(** ** What [get] makes of a file

    The three ways [get] ends on a file that is there: it serves a value, it
    drops the file and answers [None], or it fails. *)

Module APICacheCases.

Import APICache.

Inductive fate : Type :=
| Serve (r : Json.value)
| Drop
| Fail (e : exn).

Definition lookup_response (b : body) : outcome Json.value :=
  match b with
  | Garbled => Raise JSONDecodeError
  | Document d => Json.getitem d "response"
  end.

Definition fate_of (self : t) (now : Q) (b : body) : fate :=
  match past_ttl self now b with
  | Return true => Drop
  | Return false =>
      match lookup_response b with
      | Return r => Serve r
      | Raise e => if corrupted e then Drop else Fail e
      end
  | Raise e => if corrupted e then Drop else Fail e
  end.

End APICacheCases.

(** ** The instants at which calls go out *)

Module RateLimiterTrace.

Import RateLimiter.

(** A call made at clock reading [now] that slept [slept] returns, and lets
    the guarded request go out, at [returned_at now slept].  [issued] lists
    these instants for calls made at [times]. *)
Definition issued (times : list Q) (slept : list (option Q)) : list Q :=
  map (fun p => returned_at (fst p) (snd p)) (combine times slept).

End RateLimiterTrace.

(** ** Summaries by abbreviated hash *)

Module Summaries.

Import Summarizer.

Section Collaborators.

Variable create : string -> list (string * string) -> Z -> outcome (list (option string)).
Variable format_date : Z -> string.

(** [generate_summaries]: the dictionary from [info["hash"]] to the
    information of the commit with its summary.  The progress bar of the
    verbose mode only wraps the iteration. *)
Definition generate_summaries (commits : list commit) (model : string) (max_tokens : Z)
  : io log (gmap string entry) :=
  for_each commits
    (fun c summaries =>
       let i := get_commit_info format_date c in
       (s <- summarize_commit create c model max_tokens ;;
        ret (<[hash i := {| commit_info := i; summary := s |}]> summaries))%io)
    ∅.

End Collaborators.

End Summaries.

(** ** Statistics of a changelog *)

Module Statistics.

(** A changelog entry as the formatters and the statistics receive it: a
    [dict] with string keys, whose values are the strings [get_commit_info]
    and [summarize_commit] produce.  A repeated key keeps its last
    binding. *)
Abbreviation dict := (list (string * string)).

Definition dict_get (k : string) (d : dict) : option string :=
  fold_left (fun acc kv => if String.eqb (fst kv) k then Some (snd kv) else acc) d None.

(** [d[k]] *)
Definition getitem (d : dict) (k : string) : outcome string :=
  match dict_get k d with
  | Some v => Return v
  | None => Raise KeyError
  end.

(** [d.get(k, default)] *)
Definition get_default (d : dict) (k default : string) : string :=
  match dict_get k d with
  | Some v => v
  | None => default
  end.

(** [[f(x) for x in xs]], which stops at the first [f(x)] that raises. *)
Fixpoint collect {A B : Type} (f : A -> outcome B) (xs : list A) : outcome (list B) :=
  match xs with
  | [] => Return []
  | x :: rest =>
      match f x with
      | Raise e => Raise e
      | Return y =>
          match collect f rest with
          | Raise e => Raise e
          | Return ys => Return (y :: ys)
          end
      end
  end.

(** [Counter]: the counts by key, in the order in which the keys first
    occur. *)
Fixpoint bump (k : string) (counts : list (string * nat)) : list (string * nat) :=
  match counts with
  | [] => [(k, 1%nat)]
  | (k', n) :: rest =>
      if String.eqb k' k then (k', S n) :: rest else (k', n) :: bump k rest
  end.

Definition Counter (xs : list string) : list (string * nat) :=
  fold_left (fun counts x => bump x counts) xs [].

(** [min] and [max] of strings, which compare by code point; [ValueError] on
    an empty list. *)
Definition str_min (xs : list string) : outcome string :=
  match xs with
  | [] => Raise ValueError
  | x :: rest => Return (fold_left (fun m y => if String.ltb y m then y else m) rest x)
  end.

Definition str_max (xs : list string) : outcome string :=
  match xs with
  | [] => Raise ValueError
  | x :: rest => Return (fold_left (fun m y => if String.ltb m y then y else m) rest x)
  end.

(** [Counter.most_common(n)]: the [n] first of the counts sorted by
    decreasing count, keys of equal count staying in their order. *)
Fixpoint place (x : string * nat) (sorted : list (string * nat)) : list (string * nat) :=
  match sorted with
  | [] => [x]
  | y :: rest => if (snd y <? snd x)%nat then x :: y :: rest else y :: place x rest
  end.

Definition by_count (counts : list (string * nat)) : list (string * nat) :=
  fold_left (fun sorted x => place x sorted) counts [].

Definition most_common (n : nat) (counts : list (string * nat)) : list (string * nat) :=
  firstn n (by_count counts).

(** The dictionary [calculate_statistics] returns; the last two keys are
    absent for an empty changelog. *)
Record statistics : Type := {
  total_commits : nat;
  contributors : nat;
  date_range : string;
  model_used : string;
  top_contributors : option (list (string * nat));
  commits_by_date : option (list (string * nat))
}.

Definition calculate_statistics (changelog : list dict) (model : string)
  : outcome statistics :=
  match changelog with
  | [] =>
      Return {| total_commits := 0; contributors := 0; date_range := "N/A";
                model_used := model; top_contributors := None;
                commits_by_date := None |}
  | _ :: _ =>
      match collect (fun entry => getitem entry "date") changelog with
      | Raise e => Raise e
      | Return dates =>
          let authors := map (fun entry => get_default entry "author" "Unknown") changelog in
          let author_counts := Counter authors in
          match str_min dates with
          | Raise e => Raise e
          | Return first =>
              match str_max dates with
              | Raise e => Raise e
              | Return last =>
                  Return {| total_commits := List.length changelog;
                            contributors := List.length author_counts;
                            date_range := first +:+ " to " +:+ last;
                            model_used := model;
                            top_contributors := Some (most_common 5 author_counts);
                            commits_by_date := Some (Counter dates) |}
              end
          end
      end
  end.

(** The invariant of [Counter]: after the items [seen], the keys are distinct
    and each carries the number of its occurrences, which is positive. *)
Definition counted (seen : list string) (counts : list (string * nat)) : Prop :=
  List.NoDup (map fst counts)
  /\ forall k n, In (k, n) counts <-> (n = count_occ string_dec seen k /\ (0 < n)%nat).

(** The order of [most_common]: counts do not increase. *)
Definition not_fewer (a b : string * nat) : Prop := (snd b <= snd a)%nat.

End Statistics.

(** ** The Markdown formatter *)

Module MarkdownFormatter.

Import Statistics.

(** The entry [generate_changelog] appends to the changelog:
    [{**info, "summary": summary}]. *)
Definition entry_dict (en : Summarizer.entry) : dict :=
  let i := Summarizer.commit_info en in
  [ ("hash", Summarizer.hash i);
    ("full_hash", Summarizer.full_hash i);
    ("message", Summarizer.info_message i);
    ("date", Summarizer.date i);
    ("author", Summarizer.author i);
    ("email", Summarizer.email i);
    ("summary", Summarizer.summary en) ]%string.

(** The lines of the statistics.  [stats] is the dictionary with each value
    as [str] renders it; [None] and the empty dictionary are false. *)
Definition stats_lines (stats : option dict) : list string :=
  match stats with
  | None => []
  | Some [] => []
  | Some s =>
      [ "## Statistics" +:+ APICache.newline;
        "- Total commits: " +:+ get_default s "total_commits" "0";
        "- Date range: " +:+ get_default s "date_range" "N/A";
        "- Contributors: " +:+ get_default s "contributors" "0";
        "- Model used: " +:+ get_default s "model" "N/A" +:+ APICache.newline ]%string
  end.

(** [if entry['date'] != current_date: ... lines.append(f"## {current_date}\n")] *)
Definition heading (current_date : option string) (d : string) : list string :=
  match current_date with
  | Some c => if String.eqb d c then [] else ["## " +:+ d +:+ APICache.newline]%string
  | None => ["## " +:+ d +:+ APICache.newline]%string
  end.

(** The body of the loop: the date that is current after the entry, and the
    lines the entry adds. *)
Definition entry_lines (current_date : option string) (entry : dict)
  : outcome (option string * list string) :=
  match getitem entry "date" with
  | Raise e => Raise e
  | Return d =>
      match getitem entry "hash" with
      | Raise e => Raise e
      | Return h =>
          match getitem entry "message" with
          | Raise e => Raise e
          | Return m =>
              match getitem entry "summary" with
              | Raise e => Raise e
              | Return sm =>
                  Return (Some d,
                          heading current_date d
                          ++ [ "### " +:+ h;
                               "**Author:** " +:+ get_default entry "author" "Unknown";
                               "**Commit Message:** " +:+ m +:+ APICache.newline;
                               "**AI Summary:** " +:+ sm +:+ APICache.newline ]%string)
              end
          end
      end
  end.

Fixpoint entries_lines (current_date : option string) (changelog : list dict)
         (lines : list string) : outcome (list string) :=
  match changelog with
  | [] => Return lines
  | entry :: rest =>
      match entry_lines current_date entry with
      | Raise e => Raise e
      | Return (current_date', added) => entries_lines current_date' rest (lines ++ added)
      end
  end.

Definition format (changelog : list dict) (stats : option dict) : outcome string :=
  match entries_lines None changelog
          ([("# Changelog" +:+ APICache.newline)%string] ++ stats_lines stats) with
  | Raise e => Raise e
  | Return lines => Return (String.concat APICache.newline lines)
  end.

(** The keys an entry must have for [format]. *)
Definition complete (entry : dict) : Prop :=
  dict_get "date" entry <> None /\ dict_get "hash" entry <> None
  /\ dict_get "message" entry <> None /\ dict_get "summary" entry <> None.

End MarkdownFormatter.

(** * Properties *)

(** ** Comparisons *)

Lemma Qltb_lt (x y : Q) : Qltb x y = true <-> (x < y)%Q.
Proof.
  unfold Qltb. rewrite negb_true_iff, <- not_true_iff_false, Qle_bool_iff.
  split; [apply Qnot_le_lt | apply Qlt_not_le].
Qed.

Lemma Qltb_ge (x y : Q) : Qltb x y = false <-> (y <= x)%Q.
Proof.
  unfold Qltb. rewrite negb_false_iff. apply Qle_bool_iff.
Qed.

(** ** SHA-256 on the test vectors of the standard *)

Example sha256_empty :
  Sha256.hexdigest "" = "e3b0c44298fc1c149afbf4c8996fb92427ae41e4649b934ca495991b7852b855".
Proof. vm_compute. reflexivity. Qed.

Example sha256_abc :
  Sha256.hexdigest "abc" = "ba7816bf8f01cfea414140de5dae2223b00361a396177a9cb410ff61f20015ad".
Proof. vm_compute. reflexivity. Qed.

Example sha256_two_blocks :
  Sha256.hexdigest "abcdbcdecdefdefgefghfghighijhijkijkljklmklmnlmnomnopnopq"
  = "248d6a61d20638b8e5c026930c3e6039a33ce45964ff2167f6ecedd419db06c1".
Proof. vm_compute. reflexivity. Qed.

(** The digest of a key string that two different triples produce. *)
Example sha256_colliding_key :
  Sha256.hexdigest "a:b:c:d"
  = "d252cd6d29660d0e6572cd01ede1e9e5b08a3ab5c51f8efdc52c60a608823311".
Proof. vm_compute. reflexivity. Qed.

(** The digest is computed by [vm_compute] only. *)
#[global] Opaque Sha256.hexdigest.

(** ** The response cache *)

Module APICacheFacts.

Import APICache.

Lemma exists_present (fs : files) (path : string) (b : body) :
  fs !! path = Some b -> bool_decide (is_Some (fs !! path)) = true.
Proof. intros E. apply bool_decide_eq_true_2. rewrite E. eauto. Qed.

Lemma exists_absent (fs : files) (path : string) :
  fs !! path = None -> bool_decide (is_Some (fs !! path)) = false.
Proof.
  intros E. apply bool_decide_eq_false_2. rewrite E. intros [b Hb]. discriminate.
Qed.

Lemma entry_timestamp (now : Q) (response model : string) :
  Json.getitem (entry now response model) "timestamp" = Return (Json.Num now).
Proof. reflexivity. Qed.

Lemma entry_response (now : Q) (response model : string) :
  Json.getitem (entry now response model) "response" = Return (Json.Str response).
Proof. reflexivity. Qed.

(** One step of evaluation of a computation, up to the next lookup. *)
Ltac io_step :=
  cbv beta iota zeta delta [get bind try_except path_exists open_read lift unlink ret
                       negb json_load corrupted Json.rsub].

(** What [get] does with a file that is there, by what the file holds. *)

Lemma get_missing (self : t) (now : Q) (content model style : string) (fs : files) :
  fs !! _get_cache_path (_get_cache_key content model style) = None ->
  get self now content model style fs = (Return Json.Null, fs).
Proof.
  intros E. io_step. rewrite (exists_absent _ _ E). reflexivity.
Qed.

Lemma get_fresh (self : t) (now : Q) (content model style : string) (fs : files)
      (d r : Json.value) (stamp : Q) :
  fs !! _get_cache_path (_get_cache_key content model style) = Some (Document d) ->
  Json.getitem d "timestamp" = Return (Json.Num stamp) ->
  (now - stamp <= ttl_seconds self)%Q ->
  Json.getitem d "response" = Return r ->
  get self now content model style fs = (Return r, fs).
Proof.
  intros E Hts Hage Hr. io_step.
  rewrite (exists_present _ _ _ E), E. io_step.
  rewrite Hts. io_step.
  apply Qltb_ge in Hage. rewrite Hage, Hr. reflexivity.
Qed.

Lemma get_stale (self : t) (now : Q) (content model style : string) (fs : files)
      (d : Json.value) (stamp : Q) :
  fs !! _get_cache_path (_get_cache_key content model style) = Some (Document d) ->
  Json.getitem d "timestamp" = Return (Json.Num stamp) ->
  (ttl_seconds self < now - stamp)%Q ->
  get self now content model style fs
  = (Return Json.Null, delete (_get_cache_path (_get_cache_key content model style)) fs).
Proof.
  intros E Hts Hage. io_step.
  rewrite (exists_present _ _ _ E), E. io_step.
  rewrite Hts. io_step.
  apply Qltb_lt in Hage. rewrite Hage, E. reflexivity.
Qed.

Lemma get_garbled (self : t) (now : Q) (content model style : string) (fs : files) :
  fs !! _get_cache_path (_get_cache_key content model style) = Some Garbled ->
  get self now content model style fs
  = (Return Json.Null, delete (_get_cache_path (_get_cache_key content model style)) fs).
Proof.
  intros E. io_step.
  rewrite (exists_present _ _ _ E), E. io_step.
  rewrite (exists_present _ _ _ E), E. reflexivity.
Qed.

Lemma set_granted (self : t) (now : Q) (content model response style : string)
      (fs : files) :
  set true self now content model response style fs
  = (Return tt,
     <[_get_cache_path (_get_cache_key content model style)
       := Document (entry now response model)]> fs).
Proof. reflexivity. Qed.

Lemma set_refused (self : t) (now : Q) (content model response style : string)
      (fs : files) :
  set false self now content model response style fs = (Return tt, fs).
Proof. reflexivity. Qed.

(** A file whose JSON is not a record, or whose timestamp is not a number,
    makes [get] raise: [TypeError] is not among the errors it handles. *)
Lemma get_misshapen (self : t) (now : Q) (content model style : string) (fs : files)
      (d : Json.value) :
  fs !! _get_cache_path (_get_cache_key content model style) = Some (Document d) ->
  past_ttl self now (Document d) = Raise TypeError ->
  get self now content model style fs = (Raise TypeError, fs).
Proof.
  intros E Hd. io_step.
  rewrite (exists_present _ _ _ E), E. io_step.
  unfold past_ttl in Hd. cbn [json_load] in Hd.
  destruct (Json.getitem d "timestamp") as [stamp | e]; io_step.
  - destruct stamp; cbn [Json.rsub] in Hd |- *; try discriminate; reflexivity.
  - injection Hd as ->. reflexivity.
Qed.

(** *** Sweeping the directory

    A loop over distinct names that are all in the directory, whose body
    removes the file or leaves it, by what the file holds. *)
Section Sweep.

Variable step : string -> nat -> io files nat.
Variable goes : body -> bool.
Variable fine : body -> Prop.

Hypothesis step_spec :
  forall (name : string) (b : body) (count : nat) (fs : files),
    fs !! name = Some b -> fine b ->
    step name count fs
    = (Return (if goes b then S count else count),
       if goes b then delete name fs else fs).

Lemma sweep_loop (names : list string) :
  forall (fs : files) (count : nat),
    NoDup names ->
    (forall name, name ∈ names -> exists b, fs !! name = Some b /\ fine b) ->
    exists (n : nat) (fs' : files),
      for_each names step count fs = (Return n, fs')
      /\ (forall name,
            fs' !! name
            = match fs !! name with
              | Some b => if bool_decide (name ∈ names) && goes b then None else Some b
              | None => None
              end)
      /\ size fs' + n = size fs + count.
Proof.
  induction names as [| k rest IH]; intros fs count Hnd Hin.
  - exists count, fs. split; [reflexivity |]. split; [| reflexivity].
    intros name. destruct (fs !! name); [| reflexivity].
    rewrite bool_decide_eq_false_2; [reflexivity | apply not_elem_of_nil].
  - apply NoDup_cons in Hnd as [Hk Hnd].
    destruct (Hin k) as (b & Eb & Hb); [left |].
    cbn [for_each]. unfold bind at 1. rewrite (step_spec k b count fs Eb Hb).
    set (fs1 := if goes b then delete k fs else fs).
    assert (Hother : forall name, name <> k -> fs1 !! name = fs !! name).
    { intros name Hne. unfold fs1. destruct (goes b); [| reflexivity].
      apply lookup_delete_ne. congruence. }
    assert (Hk1 : fs1 !! k = if goes b then None else Some b).
    { unfold fs1. destruct (goes b); [apply lookup_delete_eq | exact Eb]. }
    destruct (IH fs1 (if goes b then S count else count) Hnd)
      as (n & fs' & Hrun & Hlook & Hsize).
    { intros name Hname. rewrite Hother; [| intros ->; contradiction].
      apply Hin. right. exact Hname. }
    exists n, fs'. split; [exact Hrun |]. split.
    + intros name. rewrite Hlook. destruct (decide (name = k)) as [-> | Hne].
      * rewrite Hk1, Eb. rewrite (bool_decide_eq_false_2 _ Hk).
        rewrite bool_decide_eq_true_2 by left.
        destruct (goes b); reflexivity.
      * rewrite (Hother _ Hne). destruct (fs !! name) as [b' |]; [| reflexivity].
        replace (bool_decide (name ∈ k :: rest)) with (bool_decide (name ∈ rest));
          [reflexivity |].
        apply bool_decide_ext. rewrite elem_of_cons. tauto.
    + assert (Hs1 : size fs1 + (if goes b then 1 else 0) = size fs).
      { unfold fs1. destruct (goes b); [| lia].
        rewrite map_size_delete_Some by eauto.
        assert (size fs <> 0); [| lia].
        intros Hz. apply map_size_empty_inv in Hz. subst fs.
        rewrite lookup_empty in Eb. discriminate. }
      destruct (goes b); lia.
Qed.

End Sweep.

Lemma json_names_NoDup (fs : files) : NoDup (json_names fs).
Proof.
  apply NoDup_ListNoDup, List.NoDup_filter, NoDup_ListNoDup.
  apply (NoDup_fst_map_to_list fs).
Qed.

Lemma elem_of_json_names (fs : files) (name : string) :
  name ∈ json_names fs <-> ends_with dot_json name = true /\ is_Some (fs !! name).
Proof.
  unfold json_names. rewrite list_elem_of_In, filter_In, <- list_elem_of_In.
  change (map fst (map_to_list fs)) with ((map_to_list fs).*1).
  rewrite list_elem_of_fmap. split.
  - intros [([k b] & -> & Hkb) Hends]. split; [exact Hends |].
    apply elem_of_map_to_list in Hkb. eauto.
  - intros [Hends [b Hb]]. split; [| exact Hends].
    exists (name, b). split; [reflexivity |]. apply elem_of_map_to_list. exact Hb.
Qed.

Lemma clear_step (name : string) (b : body) (count : nat) (fs : files) :
  fs !! name = Some b -> True ->
  try_except (unlink name ;;; ret (S count))%io
             (fun e => match e with OSError => true | _ => false end)
             (fun _ => ret count) fs
  = (Return (if true then S count else count), if true then delete name fs else fs).
Proof. intros E _. io_step. rewrite E. reflexivity. Qed.

Lemma clear_expired_step (self : t) (now : Q) (name : string) (b : body)
      (count : nat) (fs : files) :
  fs !! name = Some b -> handled self now b ->
  try_except
    (b <- open_read name ;;
     data <- lift (json_load b) ;;
     stamp <- lift (Json.getitem data "timestamp") ;;
     age <- lift (Json.rsub now stamp) ;;
     if Qltb (ttl_seconds self) age
     then (unlink name ;;; ret (S count))
     else ret count)%io
    corrupted
    (fun _ => unlink name ;;; ret (S count))%io fs
  = (Return (if swept self now b then S count else count),
     if swept self now b then delete name fs else fs).
Proof.
  intros E Hb. unfold handled in Hb. unfold swept. unfold past_ttl in *.
  io_step. rewrite E. io_step.
  destruct b as [| d]; cbn [json_load] in *.
  - io_step. rewrite E. reflexivity.
  - destruct (Json.getitem d "timestamp") as [stamp | e].
    + destruct stamp; cbn [Json.rsub] in *; try (cbn in Hb; discriminate Hb);
        repeat first [ rewrite Hb | rewrite E | progress io_step
                     | match goal with
                       | |- context [Qltb ?x ?y] => destruct (Qltb x y)
                       end ];
        reflexivity.
    + destruct e; try (cbn in Hb; discriminate Hb); io_step; rewrite E; reflexivity.
Qed.

Lemma clear_spec (self : t) (fs : files) :
  exists (n : nat) (fs' : files),
    clear self fs = (Return n, fs')
    /\ (forall name, fs' !! name = if ends_with dot_json name then None else fs !! name)
    /\ size fs' + n = size fs.
Proof.
  destruct (sweep_loop _ (fun _ => true) (fun _ => True) clear_step
              (json_names fs) fs 0 (json_names_NoDup fs))
    as (n & fs' & Hrun & Hlook & Hsize).
  { intros name Hname. apply elem_of_json_names in Hname as [_ [b Hb]]. eauto. }
  exists n, fs'. split; [exact Hrun |]. split; [| lia].
  intros name. rewrite Hlook.
  destruct (fs !! name) as [b |] eqn:E; [| destruct (ends_with dot_json name); reflexivity].
  rewrite andb_true_r.
  destruct (ends_with dot_json name) eqn:Hends.
  - rewrite bool_decide_eq_true_2; [reflexivity |].
    apply elem_of_json_names. rewrite E. eauto.
  - rewrite bool_decide_eq_false_2; [reflexivity |].
    rewrite elem_of_json_names. intros [Habs _]. congruence.
Qed.

Lemma clear_expired_spec (self : t) (now : Q) (fs : files) :
  (forall name b,
      fs !! name = Some b -> ends_with dot_json name = true -> handled self now b) ->
  exists (n : nat) (fs' : files),
    clear_expired self now fs = (Return n, fs')
    /\ (forall name,
          fs' !! name
          = match fs !! name with
            | Some b => if ends_with dot_json name && swept self now b then None else Some b
            | None => None
            end)
    /\ size fs' + n = size fs.
Proof.
  intros Hfine.
  destruct (sweep_loop _ (swept self now) (handled self now)
              (clear_expired_step self now)
              (json_names fs) fs 0 (json_names_NoDup fs))
    as (n & fs' & Hrun & Hlook & Hsize).
  { intros name Hname. apply elem_of_json_names in Hname as [Hends [b Hb]]. eauto. }
  exists n, fs'. split; [exact Hrun |]. split; [| lia].
  intros name. rewrite Hlook.
  destruct (fs !! name) as [b |] eqn:E; [| reflexivity].
  destruct (ends_with dot_json name) eqn:Hends.
  - rewrite bool_decide_eq_true_2; [reflexivity |].
    apply elem_of_json_names. rewrite E. eauto.
  - rewrite bool_decide_eq_false_2; [reflexivity |].
    rewrite elem_of_json_names. intros [Habs _]. congruence.
Qed.

(** *** The constructor *)

Ltac host_step :=
  cbv beta iota zeta delta [__init__ add_to_gitignore bind host_exists read_text
                            append_text write_text mkdir_exist_ok ret negb].

(** A registration that fails raises [OSError] and leaves the directory as it
    found it. *)
Lemma add_to_gitignore_raises (cache_dir : string) (h h' : hostdir) (e : exn) :
  add_to_gitignore cache_dir h = (Raise e, h') -> e = OSError /\ h' = h.
Proof.
  host_step.
  destruct (nodes h !! gitignore) as [[| f] |] eqn:E.
  - rewrite bool_decide_eq_true_2 by eauto. host_step. rewrite E.
    intros H. injection H as <- <-. split; reflexivity.
  - rewrite bool_decide_eq_true_2 by eauto. host_step. rewrite E.
    destruct (readable f); [| intros H; injection H as <- <-; split; reflexivity].
    destruct (contains cache_dir (text f)); host_step; [discriminate |].
    rewrite E. destruct (writable f); [discriminate |].
    intros H. injection H as <- <-. split; reflexivity.
  - rewrite bool_decide_eq_false_2 by (intros [x Hx]; discriminate). host_step.
    rewrite E. destruct (may_create h); [discriminate |].
    intros H. injection H as <- <-. split; reflexivity.
Qed.

Lemma init_after_mkdir (cache_dir : string) (ttl : Q) (h h1 : hostdir) :
  mkdir_exist_ok cache_dir h = (Return tt, h1) ->
  __init__ cache_dir ttl h
  = match add_to_gitignore cache_dir h1 with
    | (Return _, h2) => (Return {| cache_dir := cache_dir; ttl_seconds := ttl |}, h2)
    | (Raise e, h2) => (Raise e, h2)
    end.
Proof.
  intros Hmk. unfold __init__. unfold bind at 1. rewrite Hmk.
  unfold bind at 1. destruct (add_to_gitignore cache_dir h1) as [[[] | e] h2]; reflexivity.
Qed.

End APICacheFacts.

Import APICache APICacheFacts.

(** C1.  For every triple [(content, model, style)] and every response
    text: when [set] stores the response (its write is granted) and [get] is
    then called with the same triple while the age of the entry is at most
    [ttl_seconds], [get] returns that response, and leaves the directory as
    [set] left it. *)
Theorem get_after_set_returns_response
        (self : t) (fs : files) (t_set t_get : Q) (content model style response : string) :
  (t_get - t_set <= ttl_seconds self)%Q ->
  exists fs' : files,
    set true self t_set content model response style fs = (Return tt, fs')
    /\ get self t_get content model style fs' = (Return (Json.Str response), fs').
Proof.
  intros Hage. eexists. split; [apply set_granted |].
  eapply get_fresh; [apply lookup_insert_eq | apply entry_timestamp | exact Hage
                    | apply entry_response].
Qed.

Lemma get_after_set_returns_response_witness :
  (100 - 100 <= 1)%Q
  /\ exists fs' : files,
       set true {| cache_dir := ".logchange_cache"; ttl_seconds := 1 |} 100
           "diff-a" "model-x" "resp-1" "" ∅ = (Return tt, fs')
       /\ get {| cache_dir := ".logchange_cache"; ttl_seconds := 1 |} 100
              "diff-a" "model-x" "" fs' = (Return (Json.Str "resp-1"), fs').
Proof.
  split; [vm_compute; discriminate |].
  apply (get_after_set_returns_response
           {| cache_dir := ".logchange_cache"; ttl_seconds := 1 |} ∅ 100 100
           "diff-a" "model-x" "" "resp-1").
  vm_compute; discriminate.
Defined.

(** The end-to-end scenario of the specification: with a time-to-live of one
    second, the response stored at time 100 is returned at time 100 and is
    absent, and its file gone, at time 102. *)
Example ttl_one_second_scenario :
  let self := {| cache_dir := ".logchange_cache"; ttl_seconds := 1 |} in
  exists fs : files,
    set true self 100 "diff-a" "model-x" "resp-1" "" ∅ = (Return tt, fs)
    /\ get self 100 "diff-a" "model-x" "" fs = (Return (Json.Str "resp-1"), fs)
    /\ get self 102 "diff-a" "model-x" "" fs = (Return Json.Null, ∅).
Proof.
  intros self. eexists. split; [apply set_granted |]. split.
  - eapply get_fresh; [apply lookup_insert_eq | apply entry_timestamp
                      | vm_compute; discriminate | apply entry_response].
  - erewrite get_stale; [| apply lookup_insert_eq | apply entry_timestamp
                         | vm_compute; reflexivity].
    rewrite delete_insert_eq, delete_empty. reflexivity.
Qed.

(** C4.  For every cached entry (a record with a numeric timestamp stored
    under the key of a triple): once the current time minus the timestamp
    exceeds [ttl_seconds], [get] for that triple returns [None] and the file
    of the entry is removed from the directory, the other files staying. *)
Theorem get_expired_is_absent_and_removed
        (self : t) (fs : files) (now stamp : Q) (content model style : string)
        (d : Json.value) :
  let path := _get_cache_path (_get_cache_key content model style) in
  fs !! path = Some (Document d) ->
  Json.getitem d "timestamp" = Return (Json.Num stamp) ->
  (ttl_seconds self < now - stamp)%Q ->
  exists fs' : files,
    get self now content model style fs = (Return Json.Null, fs')
    /\ fs' !! path = None
    /\ (forall other : string, other <> path -> fs' !! other = fs !! other).
Proof.
  intros path E Hts Hage. exists (delete path fs). split; [| split].
  - apply (get_stale self now content model style fs d stamp E Hts Hage).
  - apply lookup_delete_eq.
  - intros other Hne. apply lookup_delete_ne. congruence.
Qed.

Lemma get_expired_is_absent_and_removed_witness :
  let self := {| cache_dir := ".logchange_cache"; ttl_seconds := 1 |} in
  let path := _get_cache_path (_get_cache_key "diff-a" "model-x" "") in
  let fs : files := <[path := Document (entry 100 "resp-1" "model-x")]> ∅ in
  exists fs' : files,
    get self 102 "diff-a" "model-x" "" fs = (Return Json.Null, fs')
    /\ fs' !! path = None
    /\ (forall other : string, other <> path -> fs' !! other = fs !! other).
Proof.
  intros self path fs.
  apply (get_expired_is_absent_and_removed self fs 102 100 "diff-a" "model-x" ""
           (entry 100 "resp-1" "model-x")).
  - vm_compute; reflexivity.
  - reflexivity.
  - vm_compute; reflexivity.
Defined.

(** C8.  The triples [("a", "b:c", "d")] and [("a:b", "c", "d")] are
    distinct and derive the same cache key, the digest of ["a:b:c:d"]; so a
    response stored under the first is what [get] returns for the second
    (while the entry is within its time-to-live). *)
Theorem distinct_triples_share_a_key :
  ("a", "b:c", "d") <> ("a:b", "c", "d")
  /\ _get_cache_key "a" "b:c" "d" = Sha256.hexdigest "a:b:c:d"
  /\ _get_cache_key "a:b" "c" "d" = Sha256.hexdigest "a:b:c:d"
  /\ forall (self : t) (fs : files) (t_set t_get : Q) (response : string),
       (t_get - t_set <= ttl_seconds self)%Q ->
       exists fs' : files,
         set true self t_set "a" "b:c" response "d" fs = (Return tt, fs')
         /\ get self t_get "a:b" "c" "d" fs' = (Return (Json.Str response), fs').
Proof.
  assert (Hfirst : _get_cache_key "a" "b:c" "d" = Sha256.hexdigest "a:b:c:d")
    by (unfold _get_cache_key; cbv beta iota delta [append]; reflexivity).
  assert (Hsecond : _get_cache_key "a:b" "c" "d" = Sha256.hexdigest "a:b:c:d")
    by (unfold _get_cache_key; cbv beta iota delta [append]; reflexivity).
  split; [discriminate |]. split; [exact Hfirst |]. split; [exact Hsecond |].
  intros self fs t_set t_get response Hage.
  eexists. split; [apply set_granted |].
  rewrite Hfirst, <- Hsecond.
  eapply get_fresh; [apply lookup_insert_eq | apply entry_timestamp | exact Hage
                    | apply entry_response].
Qed.

Lemma distinct_triples_share_a_key_witness :
  (5 - 0 <= 86400)%Q
  /\ exists fs' : files,
       set true {| cache_dir := ".logchange_cache"; ttl_seconds := 86400 |} 0
           "a" "b:c" "first" "d" ∅ = (Return tt, fs')
       /\ get {| cache_dir := ".logchange_cache"; ttl_seconds := 86400 |} 5
              "a:b" "c" "d" fs' = (Return (Json.Str "first"), fs').
Proof.
  split; [vm_compute; discriminate |].
  apply (proj2 (proj2 (proj2 distinct_triples_share_a_key))
           {| cache_dir := ".logchange_cache"; ttl_seconds := 86400 |} ∅ 0%Q 5%Q "first").
  vm_compute; discriminate.
Defined.

(** C3.  A corrupted record is absent and removed when its text is not JSON
    ([get_garbled]), but not for every invalid payload: when the file holds
    JSON that is not a record (here a list), or a record whose timestamp is
    not a number (here a string), [get] raises [TypeError] to its caller and
    the file stays. *)
Theorem get_raises_on_misshapen_payload
        (self : t) (now : Q) (content model style : string) (fs : files) :
  let path := _get_cache_path (_get_cache_key content model style) in
  (forall xs : list Json.value,
      let fs1 : files := <[path := Document (Json.Arr xs)]> fs in
      get self now content model style fs1 = (Raise TypeError, fs1))
  /\ (forall when response : string,
        let fs2 : files :=
          <[path := Document (Json.Obj [("timestamp", Json.Str when);
                                        ("response", Json.Str response)]%string)]> fs in
        get self now content model style fs2 = (Raise TypeError, fs2)).
Proof.
  intros path. split.
  - intros xs fs1. eapply get_misshapen; [apply lookup_insert_eq | reflexivity].
  - intros when response fs2. eapply get_misshapen; [apply lookup_insert_eq | reflexivity].
Qed.

(** What holds of the two sweeps.  [clear] removes every [*.json] file
    whatever its age and returns the number of files removed.  In a
    directory whose [*.json] files are each unparsable or a record with a
    numeric timestamp, [clear_expired] removes the unparsable ones and
    those whose age exceeds [ttl_seconds], leaves the fresh ones and every
    other file, and returns the number of files removed. *)
Theorem clear_and_clear_expired_remove_and_count (self : t) (now : Q) (fs : files) :
  (exists (n : nat) (fs' : files),
      clear self fs = (Return n, fs')
      /\ (forall name, ends_with dot_json name = true -> fs' !! name = None)
      /\ (forall name, ends_with dot_json name = false -> fs' !! name = fs !! name)
      /\ size fs' + n = size fs)
  /\ ((forall name b,
         fs !! name = Some b -> ends_with dot_json name = true ->
         unparsable b \/ exists stamp, stamped b stamp) ->
      exists (n : nat) (fs' : files),
        clear_expired self now fs = (Return n, fs')
        /\ (forall name b,
              fs !! name = Some b -> ends_with dot_json name = true ->
              unparsable b ->
              fs' !! name = None)
        /\ (forall name b stamp,
              fs !! name = Some b -> ends_with dot_json name = true ->
              stamped b stamp -> (ttl_seconds self < now - stamp)%Q ->
              fs' !! name = None)
        /\ (forall name b stamp,
              fs !! name = Some b -> stamped b stamp ->
              (now - stamp <= ttl_seconds self)%Q ->
              fs' !! name = Some b)
        /\ (forall name, ends_with dot_json name = false -> fs' !! name = fs !! name)
        /\ (forall name b, fs' !! name = Some b -> fs !! name = Some b)
        /\ size fs' + n = size fs).
Proof.
  split.
  - destruct (clear_spec self fs) as (n & fs' & Hrun & Hlook & Hsize).
    exists n, fs'. split; [exact Hrun |]. split; [| split; [| exact Hsize]].
    + intros name Hends. rewrite Hlook, Hends. reflexivity.
    + intros name Hends. rewrite Hlook, Hends. reflexivity.
  - intros Hdir.
    assert (Hstamped : forall b stamp, stamped b stamp ->
              past_ttl self now b = Return (Qltb (ttl_seconds self) (now - stamp))).
    { intros b stamp (d & -> & Hts). unfold past_ttl. cbn [json_load]. rewrite Hts.
      reflexivity. }
    assert (Hunparsable : forall b, unparsable b ->
              exists e, past_ttl self now b = Raise e /\ corrupted e = true).
    { intros b [-> | (d & -> & Hts)].
      - exists JSONDecodeError. split; reflexivity.
      - exists KeyError. unfold past_ttl. cbn [json_load]. rewrite Hts.
        split; reflexivity. }
    destruct (clear_expired_spec self now fs) as (n & fs' & Hrun & Hlook & Hsize).
    { intros name b Hb Hends. unfold handled.
      destruct (Hdir name b Hb Hends) as [Hun | [stamp Hst]].
      - destruct (Hunparsable b Hun) as (e & -> & He). exact He.
      - rewrite (Hstamped b stamp Hst). exact I. }
    exists n, fs'. split; [exact Hrun |]. repeat split.
    + intros name b Hb Hends Hun. rewrite Hlook, Hb, Hends.
      unfold swept. destruct (Hunparsable b Hun) as (e & -> & ->). reflexivity.
    + intros name b stamp Hb Hends Hst Hage. rewrite Hlook, Hb, Hends.
      unfold swept. rewrite (Hstamped b stamp Hst).
      apply Qltb_lt in Hage. rewrite Hage. reflexivity.
    + intros name b stamp Hb Hst Hage. rewrite Hlook, Hb.
      unfold swept. rewrite (Hstamped b stamp Hst).
      apply Qltb_ge in Hage. rewrite Hage, andb_false_r. reflexivity.
    + intros name Hends. rewrite Hlook, Hends. destruct (fs !! name); reflexivity.
    + intros name b. rewrite Hlook. destruct (fs !! name) as [b' |]; [| discriminate].
      destruct (ends_with dot_json name && swept self now b'); [discriminate |].
      intros H. exact H.
    + exact Hsize.
Qed.

Lemma clear_and_clear_expired_remove_and_count_witness :
  let self := {| cache_dir := ".logchange_cache"; ttl_seconds := 10 |} in
  let fs : files :=
    <["a.json" := Garbled]>
      (<["b.json" := Document (entry 0 "old" "m")]>
         (<["c.json" := Document (entry 95 "new" "m")]> ∅)) in
  (forall name b,
      fs !! name = Some b -> ends_with dot_json name = true ->
      unparsable b \/ exists stamp, stamped b stamp)
  /\ exists (n : nat) (fs' : files),
       clear_expired self 100 fs = (Return n, fs')
       /\ fs' !! "a.json" = None
       /\ fs' !! "b.json" = None
       /\ fs' !! "c.json" = Some (Document (entry 95 "new" "m"))
       /\ size fs' + n = size fs.
Proof.
  intros self fs.
  assert (Hdir : forall name b,
             fs !! name = Some b -> ends_with dot_json name = true ->
             unparsable b \/ exists stamp, stamped b stamp).
  { intros name b Hb _. unfold fs in Hb.
    rewrite !lookup_insert_Some, lookup_empty in Hb.
    destruct Hb as [[_ <-] | [_ [[_ <-] | [_ [[_ <-] | [_ Hb]]]]]].
    - left. left. reflexivity.
    - right. exists 0%Q, (entry 0 "old" "m"). split; reflexivity.
    - right. exists 95%Q, (entry 95 "new" "m"). split; reflexivity.
    - discriminate. }
  split; [exact Hdir |].
  destruct (proj2 (clear_and_clear_expired_remove_and_count self 100 fs) Hdir)
    as (n & fs' & Hrun & Hgarbled & Hstale & Hfresh & _ & _ & Hsize).
  exists n, fs'. split; [exact Hrun |].
  split; [| split; [| split; [| exact Hsize]]].
  - apply (Hgarbled "a.json" Garbled);
      [vm_compute; reflexivity | vm_compute; reflexivity | left; reflexivity].
  - apply (Hstale "b.json" (Document (entry 0 "old" "m")) 0%Q).
    + vm_compute; reflexivity.
    + vm_compute; reflexivity.
    + exists (entry 0 "old" "m"). split; reflexivity.
    + vm_compute; reflexivity.
  - apply (Hfresh "c.json" _ 95%Q).
    + vm_compute; reflexivity.
    + exists (entry 95 "new" "m"). split; reflexivity.
    + vm_compute; discriminate.
Defined.

(** The sweep has the defect of [get]: one file whose JSON is not a record
    makes [clear_expired] raise [TypeError], whatever else is there. *)
Example clear_expired_raises_on_misshapen_payload :
  fst (clear_expired {| cache_dir := ".logchange_cache"; ttl_seconds := 10 |} 100
                     (<["a.json" := Document (Json.Arr [])]> ∅))
  = Raise TypeError.
Proof. vm_compute. reflexivity. Qed.

(** ** The rate limiter *)

Module RateLimiterFacts.

Import RateLimiter.

Lemma fold_smaller_In (rest : list Q) :
  forall x : Q, In (fold_left smaller rest x) (x :: rest).
Proof.
  induction rest as [| y rest IH]; intros x; [left; reflexivity |].
  cbn [fold_left]. destruct (IH (smaller x y)) as [H | H].
  - rewrite <- H. unfold smaller. destruct (Qltb y x); [right; left | left]; reflexivity.
  - right. right. exact H.
Qed.

Lemma py_min_In (xs : list Q) (m : Q) : py_min xs = Return m -> In m xs.
Proof.
  destruct xs as [| x rest]; [discriminate |].
  intros H. injection H as <-. apply (fold_smaller_In rest x).
Qed.

Lemma py_min_nonempty (xs : list Q) :
  xs <> [] -> exists m : Q, py_min xs = Return m.
Proof. destruct xs; [congruence | eexists; reflexivity]. Qed.

Lemma recent_In (now c : Q) (cs : list Q) :
  In c (recent now cs) <-> In c cs /\ (now - c < 60)%Q.
Proof. unfold recent. rewrite filter_In, Qltb_lt. tauto. Qed.

Lemma recent_length (now : Q) (cs : list Q) :
  (List.length (recent now cs) <= List.length cs)%nat.
Proof.
  unfold recent. induction cs as [| c cs IH]; cbn [List.filter]; [lia |].
  destruct (Qltb (now - c) 60); cbn [List.length]; lia.
Qed.

Lemma recent_drops (now c : Q) (cs : list Q) :
  In c cs -> (60 <= now - c)%Q ->
  (List.length (recent now cs) < List.length cs)%nat.
Proof.
  unfold recent. induction cs as [| c' cs IH]; intros Hin Hold; [destruct Hin |].
  cbn [List.filter]. destruct Hin as [-> | Hin].
  - apply Qltb_ge in Hold. rewrite Hold. cbn [List.length].
    pose proof (recent_length now cs). unfold recent in *. lia.
  - specialize (IH Hin Hold).
    destruct (Qltb (now - c') 60); cbn [List.length]; lia.
Qed.

Ltac limiter_step :=
  cbv beta iota zeta delta [wait_if_needed bind get_state set_calls lift ret with_calls
                            calls max_calls].

(** The three ways a call goes, by the calls still in the window. *)

Lemma wait_if_needed_below (now : Q) (self : t) :
  (Z.of_nat (List.length (recent now (calls self))) < max_calls self)%Z ->
  wait_if_needed now self
  = (Return None, with_calls self (recent now (calls self) ++ [now])).
Proof.
  intros Hlt. destruct self as [n cs]. cbn [calls max_calls] in Hlt. limiter_step.
  apply Z.leb_gt in Hlt. rewrite Hlt. reflexivity.
Qed.

Lemma wait_if_needed_at_ceiling (now oldest : Q) (self : t) :
  (max_calls self <= Z.of_nat (List.length (recent now (calls self))))%Z ->
  py_min (recent now (calls self)) = Return oldest ->
  (0 < 60 - (now - oldest))%Q
  /\ wait_if_needed now self
     = (Return (Some (60 - (now - oldest))%Q), with_calls self [now]).
Proof.
  intros Hle Hmin.
  assert (Hpos : (0 < 60 - (now - oldest))%Q).
  { apply py_min_In, recent_In in Hmin as [_ Hin]. lra. }
  split; [exact Hpos |].
  destruct self as [n cs]. cbn [calls max_calls] in Hle, Hmin. limiter_step.
  apply Z.leb_le in Hle. rewrite Hle, Hmin. limiter_step.
  apply Qltb_lt in Hpos. rewrite Hpos. reflexivity.
Qed.

Lemma wait_if_needed_empty_window (now : Q) (self : t) :
  (max_calls self <= 0)%Z ->
  recent now (calls self) = [] ->
  wait_if_needed now self = (Raise ValueError, with_calls self []).
Proof.
  intros Hle Hnone. destruct self as [n cs]. cbn [calls max_calls] in Hle, Hnone.
  limiter_step. rewrite Hnone. change (Z.of_nat (List.length (@nil Q))) with 0%Z.
  apply Z.leb_le in Hle. rewrite Hle. reflexivity.
Qed.

(** With a ceiling of at least one call, the call returns. *)
Lemma wait_if_needed_returns (now : Q) (self : t) :
  (1 <= max_calls self)%Z ->
  exists (slept : option Q) (self' : t),
    wait_if_needed now self = (Return slept, self').
Proof.
  intros Hpos.
  destruct (Z.lt_ge_cases (Z.of_nat (List.length (recent now (calls self))))
                          (max_calls self)) as [Hlt | Hge].
  - rewrite (wait_if_needed_below now self Hlt). eauto.
  - destruct (py_min_nonempty (recent now (calls self))) as [oldest Hmin].
    { intros Hnil. rewrite Hnil in Hge. cbn in Hge. lia. }
    destruct (wait_if_needed_at_ceiling now oldest self Hge Hmin) as [_ ->]. eauto.
Qed.

Lemma wait_if_needed_keeps_ceiling (n : Z) (now : Q) (self self' : t) (slept : option Q) :
  within_ceiling n self ->
  wait_if_needed now self = (Return slept, self') ->
  within_ceiling n self'.
Proof.
  intros (Hmax & Hlen & Hnone) Hrun.
  destruct (Z.lt_ge_cases (Z.of_nat (List.length (recent now (calls self))))
                          (max_calls self)) as [Hlt | Hge].
  - rewrite (wait_if_needed_below now self Hlt) in Hrun. injection Hrun as <- <-.
    split; [exact Hmax |]. split.
    + intros _. cbn [with_calls calls]. rewrite length_app. cbn [List.length]. lia.
    + intros Hle. pose proof (Nat2Z.is_nonneg (List.length (recent now (calls self)))).
      lia.
  - destruct (recent now (calls self)) as [| c cs] eqn:Hrecent.
    + assert (Hle : (max_calls self <= 0)%Z) by (cbn in Hge; lia).
      rewrite (wait_if_needed_empty_window now self Hle Hrecent) in Hrun.
      discriminate.
    + destruct (py_min_nonempty (recent now (calls self))) as [oldest Hmin].
      { rewrite Hrecent. discriminate. }
      rewrite <- Hrecent in Hge.
      destruct (wait_if_needed_at_ceiling now oldest self Hge Hmin) as [_ Heq].
      rewrite Heq in Hrun. injection Hrun as <- <-.
      split; [exact Hmax |]. split.
      * intros H1. cbn. lia.
      * intros Hle. pose proof (recent_length now (calls self)).
        pose proof (Hnone Hle) as Hnil. rewrite Hnil in Hrecent. discriminate.
Qed.

Lemma reachable_within_ceiling (n : Z) (self : t) :
  reachable n self -> within_ceiling n self.
Proof.
  induction 1 as [| self self' now slept _ IH Hrun].
  - split; [reflexivity |]. split; [cbn; lia | reflexivity].
  - exact (wait_if_needed_keeps_ceiling n now self self' slept IH Hrun).
Qed.

(** Calls at one instant: while the ceiling is not reached each one returns at
    once and is recorded. *)
Lemma recent_repeat (t0 t1 : Q) (k : nat) :
  (t1 - t0 < 60)%Q -> recent t1 (repeat t0 k) = repeat t0 k.
Proof.
  intros Hin. apply Qltb_lt in Hin. unfold recent.
  induction k as [| k IH]; [reflexivity |].
  cbn [repeat List.filter]. rewrite Hin, IH. reflexivity.
Qed.

Lemma py_min_repeat (t0 : Q) (k : nat) : py_min (repeat t0 (S k)) = Return t0.
Proof.
  cbn [repeat py_min]. f_equal.
  induction k as [| k IH]; [reflexivity |].
  cbn [repeat fold_left]. replace (smaller t0 t0) with t0; [exact IH |].
  unfold smaller. destruct (Qltb t0 t0); reflexivity.
Qed.

Lemma run_same_instant (n : Z) (t0 : Q) (j : nat) :
  forall k : nat,
    (Z.of_nat (k + j) <= n)%Z ->
    run (repeat t0 j) {| max_calls := n; calls := repeat t0 k |}
    = (Return (repeat None j), {| max_calls := n; calls := repeat t0 (k + j) |}).
Proof.
  induction j as [| j IH]; intros k Hle.
  - rewrite Nat.add_0_r. reflexivity.
  - cbn [repeat run]. unfold bind at 1.
    rewrite wait_if_needed_below; cbn [calls max_calls with_calls];
      rewrite recent_repeat by lra.
    + rewrite <- repeat_cons. change (t0 :: repeat t0 k) with (repeat t0 (S k)).
      unfold with_calls. cbn [max_calls]. unfold bind at 1. rewrite IH by lia.
      replace (S k + j)%nat with (k + S j)%nat by lia. reflexivity.
    + rewrite repeat_length. lia.
Qed.

End RateLimiterFacts.

Import RateLimiter RateLimiterFacts.

(** C2.  Whenever [wait_if_needed] returns, on a limiter obtained from a
    fresh one by earlier calls, the recorded calls that fall within 60
    seconds of the present, or of any other instant, are at most
    [max_calls].  When the calls still in the window had reached the
    ceiling, the call slept for the positive time [60 - (now - oldest)], and
    when it returns fewer than [max_calls] of those calls are still in the
    window. *)
Theorem ceiling_holds_after_every_return
        (n : Z) (self self' : t) (now : Q) (slept : option Q) :
  reachable n self ->
  wait_if_needed now self = (Return slept, self') ->
  (forall instant : Q,
      (Z.of_nat (List.length (recent instant (calls self'))) <= max_calls self')%Z)
  /\ ((max_calls self <= Z.of_nat (List.length (recent now (calls self))))%Z ->
      exists oldest wait_time : Q,
        py_min (recent now (calls self)) = Return oldest
        /\ slept = Some wait_time
        /\ wait_time = (60 - (now - oldest))%Q
        /\ (0 < wait_time)%Q
        /\ (Z.of_nat (List.length (recent (returned_at now slept)
                                          (recent now (calls self))))
            < max_calls self)%Z).
Proof.
  intros Hreach Hrun.
  pose proof (reachable_within_ceiling n self Hreach) as Hself.
  pose proof (wait_if_needed_keeps_ceiling n now self self' slept Hself Hrun)
    as (Hmax' & Hlen' & Hnone').
  destruct Hself as (Hmax & Hlen & Hnone).
  assert (Hpos : (1 <= n)%Z).
  { destruct (Z.lt_ge_cases 0 n) as [H | H]; [lia |].
    assert (Hrecent : recent now (calls self) = []) by (rewrite (Hnone H); reflexivity).
    rewrite wait_if_needed_empty_window in Hrun by (assumption || lia).
    discriminate. }
  split.
  - intros instant. pose proof (recent_length instant (calls self')).
    specialize (Hlen' Hpos). lia.
  - intros Hge.
    destruct (py_min_nonempty (recent now (calls self))) as [oldest Hmin].
    { intros Hnil. rewrite Hnil in Hge. cbn in Hge. lia. }
    destruct (wait_if_needed_at_ceiling now oldest self Hge Hmin) as [Hwait Heq].
    rewrite Heq in Hrun. injection Hrun as <- <-.
    exists oldest, (60 - (now - oldest))%Q.
    split; [exact Hmin |]. split; [reflexivity |]. split; [reflexivity |].
    split; [exact Hwait |].
    cbn [returned_at].
    assert (Hdrop : (List.length (recent (now + (60 - (now - oldest)))
                                         (recent now (calls self)))
                     < List.length (recent now (calls self)))%nat).
    { apply (recent_drops _ oldest); [apply py_min_In; exact Hmin | lra]. }
    pose proof (recent_length now (calls self)). specialize (Hlen Hpos). lia.
Qed.

Lemma ceiling_holds_after_every_return_witness :
  let self := {| max_calls := 2; calls := [0; 0]%Q |} in
  reachable 2 self
  /\ exists (slept : option Q) (self' : t),
       wait_if_needed 0 self = (Return slept, self')
       /\ (forall instant : Q,
             (Z.of_nat (List.length (recent instant (calls self'))) <= max_calls self')%Z)
       /\ exists wait_time : Q, slept = Some wait_time /\ (0 < wait_time)%Q.
Proof.
  intros self.
  assert (Hreach : reachable 2 self).
  { apply (reach_call 2 {| max_calls := 2; calls := [0%Q] |} self 0 None);
      [| reflexivity].
    apply (reach_call 2 (__init__ 2) _ 0 None); [apply reach_init | reflexivity]. }
  split; [exact Hreach |].
  exists (Some (60 - (0 - 0))%Q), {| max_calls := 2; calls := [0%Q] |}.
  assert (Hrun : wait_if_needed 0 self
                 = (Return (Some (60 - (0 - 0))%Q), {| max_calls := 2; calls := [0%Q] |}))
    by reflexivity.
  split; [exact Hrun |].
  destruct (ceiling_holds_after_every_return 2 self _ 0 _ Hreach Hrun) as [Hall Hwait].
  split; [exact Hall |].
  destruct Hwait as (oldest & wait_time & _ & Hslept & _ & Hpos & _).
  { vm_compute. discriminate. }
  exists wait_time. split; [exact Hslept | exact Hpos].
Defined.

(** C6.  With [max_calls = n], for [n] at least 1: the first [n] calls,
    issued at one instant [t0], each return without waiting; the next call,
    at an instant [t1] less than 60 seconds after [t0], finds [t0] as its
    oldest remaining call and sleeps [60 - (t1 - t0)], which is positive. *)
Theorem first_calls_pass_and_next_waits (n : nat) (t0 t1 : Q) :
  (1 <= n)%nat ->
  (t1 - t0 < 60)%Q ->
  exists self self' : t,
    run (repeat t0 n) (__init__ (Z.of_nat n)) = (Return (repeat None n), self)
    /\ py_min (recent t1 (calls self)) = Return t0
    /\ wait_if_needed t1 self = (Return (Some (60 - (t1 - t0))%Q), self')
    /\ (0 < 60 - (t1 - t0))%Q.
Proof.
  intros Hn Hwin.
  exists {| max_calls := Z.of_nat n; calls := repeat t0 n |},
         {| max_calls := Z.of_nat n; calls := [t1] |}.
  assert (Hmin : py_min (recent t1 (repeat t0 n)) = Return t0).
  { rewrite recent_repeat by exact Hwin.
    destruct n as [| m]; [lia | apply py_min_repeat]. }
  split; [apply (run_same_instant (Z.of_nat n) t0 n 0); cbn; lia |].
  split; [exact Hmin |].
  destruct (wait_if_needed_at_ceiling t1 t0
              {| max_calls := Z.of_nat n; calls := repeat t0 n |}) as [Hpos Heq].
  - cbn [calls max_calls]. rewrite recent_repeat by exact Hwin.
    rewrite repeat_length. lia.
  - exact Hmin.
  - split; [exact Heq | exact Hpos].
Qed.

Lemma first_calls_pass_and_next_waits_witness :
  (1 <= 2)%nat
  /\ (0 - 0 < 60)%Q
  /\ exists self self' : t,
       run [0; 0]%Q (__init__ 2) = (Return [None; None], self)
       /\ py_min (recent 0 (calls self)) = Return 0%Q
       /\ wait_if_needed 0 self = (Return (Some (60 - (0 - 0))%Q), self')
       /\ (0 < 60 - (0 - 0))%Q.
Proof.
  split; [lia |]. split; [reflexivity |].
  apply (first_calls_pass_and_next_waits 2 0 0); [lia | reflexivity].
Defined.

(** The end-to-end scenario of the specification: with a ceiling of two
    calls, of three calls at time 0 the third sleeps 60 seconds. *)
Example three_calls_at_once :
  fst (run [0; 0; 0]%Q (__init__ 2)) = Return [None; None; Some (60 - (0 - 0))%Q].
Proof. reflexivity. Qed.

(** C6 without the condition on [n] fails.  With [max_calls = 0] no call
    comes first, and the next call, the first one, does not wait: it raises
    [ValueError], as there is no oldest remaining call to wait for. *)
Lemma next_call_raises_under_zero_ceiling :
  run (repeat 0%Q 0) (__init__ (Z.of_nat 0)) = (Return (repeat None 0), __init__ 0)
  /\ py_min (recent 0 (calls (__init__ 0))) = Raise ValueError
  /\ wait_if_needed 0 (__init__ 0) = (Raise ValueError, __init__ 0)
  /\ ~ (exists self self' : t,
          run (repeat 0%Q 0) (__init__ (Z.of_nat 0)) = (Return (repeat None 0), self)
          /\ py_min (recent 0 (calls self)) = Return 0%Q
          /\ wait_if_needed 0 self = (Return (Some (60 - (0 - 0))%Q), self')
          /\ (0 < 60 - (0 - 0))%Q).
Proof.
  split; [reflexivity |]. split; [reflexivity |]. split; [reflexivity |].
  intros (self & self' & Hrun & Hmin & _).
  cbn in Hrun. injection Hrun as <-. cbn in Hmin. discriminate Hmin.
Qed.

(** C7.  With [max_calls = 0] the first call of a fresh limiter raises
    [ValueError]: no call is in the window, the ceiling counts as reached,
    and [min] is applied to an empty list.  The call does not delay; it
    fails. *)
Theorem wait_if_needed_raises_under_zero_ceiling (now : Q) :
  wait_if_needed now (__init__ 0) = (Raise ValueError, __init__ 0).
Proof. reflexivity. Qed.

(** ** Summarizing commits *)

Module SummarizerFacts.

Import Summarizer.

Section Collaborators.

Variable create : string -> list (string * string) -> Z -> outcome (list (option string)).
Variable format_date : Z -> string.

(** The provider raised: the handler logs and answers with the sentinel. *)
Lemma summarize_commit_raised (c : commit) (model : string) (max_tokens : Z)
      (l : log) (e : exn) :
  is_Exception e = true ->
  create model (messages_of (prompt_for c)) max_tokens = Raise e ->
  summarize_commit create c model max_tokens l
  = (Return sentinel, l ++ [(String.substring 0 7 (hexsha c), e)]).
Proof.
  intros Hexc Hraise. unfold summarize_commit, try_except, bind, lift.
  fold (prompt_for c). rewrite Hraise, Hexc. reflexivity.
Qed.

(** Whatever the provider answers, short of an error that is not an
    [Exception], a summary comes back. *)
Lemma summarize_commit_returns (c : commit) (model : string) (max_tokens : Z) (l : log) :
  (forall e, create model (messages_of (prompt_for c)) max_tokens = Raise e ->
             is_Exception e = true) ->
  exists (s : string) (l' : log),
    summarize_commit create c model max_tokens l = (Return s, l')
    /\ (forall e, create model (messages_of (prompt_for c)) max_tokens = Raise e ->
                  s = sentinel).
Proof.
  intros Hexc. unfold summarize_commit, try_except, bind, lift.
  fold (prompt_for c).
  destruct (create model (messages_of (prompt_for c)) max_tokens)
    as [[| [txt |] rest] | e] eqn:Hcreate.
  - eexists _, _. split; [reflexivity | discriminate].
  - eexists _, _. split; [reflexivity | discriminate].
  - eexists _, _. split; [reflexivity | discriminate].
  - rewrite (Hexc e eq_refl). eexists _, _. split; [reflexivity | reflexivity].
Qed.

Lemma changelog_loop (model : string) (max_tokens : Z) (commits : list commit) :
  forall (changelog : list entry) (l : log),
    (forall c e, In c commits ->
                 create model (messages_of (prompt_for c)) max_tokens = Raise e ->
                 is_Exception e = true) ->
    exists (entries : list entry) (l' : log),
      for_each commits
        (fun c changelog =>
           let i := get_commit_info format_date c in
           (s <- summarize_commit create c model max_tokens ;;
            ret (changelog ++ [ {| commit_info := i; summary := s |} ]))%io)
        changelog l
      = (Return (changelog ++ entries), l')
      /\ Forall2 (fun c en =>
                    commit_info en = get_commit_info format_date c
                    /\ (forall e,
                          create model (messages_of (prompt_for c)) max_tokens = Raise e ->
                          summary en = sentinel))
                 commits entries.
Proof.
  induction commits as [| c rest IH]; intros changelog l Hexc.
  - exists [], l. rewrite app_nil_r. split; [reflexivity | constructor].
  - destruct (summarize_commit_returns c model max_tokens l) as (s & l1 & Hs & Hsent).
    { intros e. apply Hexc. left. reflexivity. }
    destruct (IH (changelog ++ [ {| commit_info := get_commit_info format_date c;
                                    summary := s |} ]) l1)
      as (entries & l' & Hrun & Hall).
    { intros c' e Hin. apply Hexc. right. exact Hin. }
    exists ({| commit_info := get_commit_info format_date c; summary := s |} :: entries), l'.
    split.
    + cbn [for_each]. unfold bind at 1. cbv zeta. unfold bind at 1. rewrite Hs.
      cbv beta iota. unfold ret at 1. rewrite <- app_assoc in Hrun. exact Hrun.
    + constructor; [split; [reflexivity | exact Hsent] | exact Hall].
Qed.

End Collaborators.

End SummarizerFacts.

Import Summarizer SummarizerFacts.

(** C9.  For every commit: if the call to the provider raises an error (any
    [Exception], so a connection, authentication or quota error),
    [summarize_commit] logs it and returns ["Summary unavailable."].  So
    when the provider fails on some commits of a batch, the loop of
    [generate_changelog] still returns one entry per commit, in order, each
    with the information of its commit, the failed ones with the sentinel
    as summary. *)
Theorem failed_summary_does_not_halt_the_batch
        (create : string -> list (string * string) -> Z -> outcome (list (option string)))
        (format_date : Z -> string) (model : string) (max_tokens : Z) :
  (forall (c : commit) (l : log) (e : exn),
      is_Exception e = true ->
      create model (messages_of (prompt_for c)) max_tokens = Raise e ->
      summarize_commit create c model max_tokens l
      = (Return "Summary unavailable."%string,
         l ++ [(String.substring 0 7 (hexsha c), e)]))
  /\ (forall (commits : list commit) (l : log),
        (forall c e, In c commits ->
                     create model (messages_of (prompt_for c)) max_tokens = Raise e ->
                     is_Exception e = true) ->
        exists (entries : list entry) (l' : log),
          changelog_entries create format_date commits model max_tokens l
          = (Return entries, l')
          /\ Forall2 (fun c en =>
                        commit_info en = get_commit_info format_date c
                        /\ (forall e,
                              create model (messages_of (prompt_for c)) max_tokens
                              = Raise e ->
                              summary en = "Summary unavailable."%string))
                     commits entries).
Proof.
  split.
  - intros c l e. apply summarize_commit_raised.
  - intros commits l Hexc.
    destruct (changelog_loop create format_date model max_tokens commits [] l Hexc)
      as (entries & l' & Hrun & Hall).
    exists entries, l'. split; [exact Hrun | exact Hall].
Qed.

Lemma failed_summary_does_not_halt_the_batch_witness :
  let quota_exhausted : string -> list (string * string) -> Z -> outcome (list (option string)) :=
    fun _ _ _ => Raise RateLimitError in
  let c1 := {| hexsha := "0123456789abcdef"; message := "Fix parser ";
               patches := ["+ a"; "- b"]; committed_date := 0;
               author_name := "A"; author_email := "a@example.org" |} in
  let c2 := {| hexsha := "fedcba9876543210"; message := "Add tests";
               patches := []; committed_date := 86400;
               author_name := "B"; author_email := "b@example.org" |} in
  is_Exception RateLimitError = true
  /\ summarize_commit quota_exhausted c1 "gpt-4" 300 []
     = (Return "Summary unavailable."%string, [("0123456"%string, RateLimitError)])
  /\ exists (entries : list entry) (l' : log),
       changelog_entries quota_exhausted (fun _ => "1970-01-01"%string) [c1; c2] "gpt-4" 300 []
       = (Return entries, l')
       /\ List.length entries = 2%nat.
Proof.
  intros quota_exhausted c1 c2.
  pose proof (failed_summary_does_not_halt_the_batch
                quota_exhausted (fun _ => "1970-01-01"%string) "gpt-4" 300)
    as [Hone Hbatch].
  split; [reflexivity |]. split.
  - apply (Hone c1 [] RateLimitError); reflexivity.
  - destruct (Hbatch [c1; c2] []) as (entries & l' & Hrun & Hall).
    + intros c e _ Hraise. unfold quota_exhausted in Hraise.
      injection Hraise as <-. reflexivity.
    + exists entries, l'. split; [exact Hrun |].
      apply Forall2_length in Hall. symmetry. exact Hall.
Defined.

(** C10, as the code has it.  When the registration in [.gitignore] fails
    during construction, the [OSError] it raises propagates out of the
    constructor: no cache object is returned, and the directory stays as the
    creation of the cache directory left it. *)
Theorem registration_failure_leaves_the_constructor
        (cache_dir : string) (ttl : Q) (h h1 h2 : hostdir) (e : exn) :
  mkdir_exist_ok cache_dir h = (Return tt, h1) ->
  add_to_gitignore cache_dir h1 = (Raise e, h2) ->
  e = OSError /\ APICache.__init__ cache_dir ttl h = (Raise OSError, h1).
Proof.
  intros Hmk Hreg.
  destruct (add_to_gitignore_raises cache_dir h1 h2 e Hreg) as [-> ->].
  split; [reflexivity |].
  rewrite (init_after_mkdir cache_dir ttl h h1 Hmk), Hreg. reflexivity.
Qed.

Lemma registration_failure_leaves_the_constructor_witness :
  let h := {| nodes := <[".gitignore" := File {| text := "build/"; readable := true;
                                                 writable := false |}]> ∅;
              may_create := true |} in
  let h1 := {| nodes := <[".logchange_cache" := Directory]> (nodes h);
               may_create := true |} in
  mkdir_exist_ok ".logchange_cache" h = (Return tt, h1)
  /\ add_to_gitignore ".logchange_cache" h1 = (Raise OSError, h1)
  /\ APICache.__init__ ".logchange_cache" 86400 h = (Raise OSError, h1).
Proof.
  intros h h1.
  assert (Hmk : mkdir_exist_ok ".logchange_cache" h = (Return tt, h1))
    by (vm_compute; reflexivity).
  assert (Hreg : add_to_gitignore ".logchange_cache" h1 = (Raise OSError, h1))
    by (vm_compute; reflexivity).
  split; [exact Hmk |]. split; [exact Hreg |].
  exact (proj2 (registration_failure_leaves_the_constructor
                  ".logchange_cache" 86400 h h1 h1 OSError Hmk Hreg)).
Defined.

(** C10, as the specification words it (no error leaves the constructor),
    fails: with a [.gitignore] that cannot be read the registration fails and
    the constructor raises [OSError]; so it does with a [.gitignore] that
    lacks the entry and cannot be written. *)
Lemma constructor_raises_when_registration_fails :
  (fst (add_to_gitignore ".logchange_cache"
          (project_with ".logchange_cache"
             {| text := "build/"; readable := false; writable := true |}))
   = Raise OSError
   /\ fst (APICache.__init__ ".logchange_cache" 86400
             (project_with ".logchange_cache"
                {| text := "build/"; readable := false; writable := true |}))
      = Raise OSError)
  /\ (fst (add_to_gitignore ".logchange_cache"
             (project_with ".logchange_cache"
                {| text := "build/"; readable := true; writable := false |}))
      = Raise OSError
      /\ fst (APICache.__init__ ".logchange_cache" 86400
                (project_with ".logchange_cache"
                   {| text := "build/"; readable := true; writable := false |}))
         = Raise OSError).
Proof. repeat split; vm_compute; reflexivity. Qed.

(** * Further properties of the code *)

(** ** Strings *)

Module StringFacts.

Lemma append_cons (x : ascii) (a b : string) : String x a +:+ b = String x (a +:+ b).
Proof. reflexivity. Qed.

Lemma append_nil_l (b : string) : "" +:+ b = b.
Proof. reflexivity. Qed.

Lemma append_assoc (a b c : string) : (a +:+ b) +:+ c = a +:+ (b +:+ c).
Proof.
  induction a as [| x a IH]; [reflexivity |].
  rewrite !append_cons, IH. reflexivity.
Qed.

Lemma append_nil_r (a : string) : a +:+ "" = a.
Proof.
  induction a as [| x a IH]; [reflexivity |].
  rewrite append_cons, IH. reflexivity.
Qed.

Lemma length_append (a b : string) :
  String.length (a +:+ b) = (String.length a + String.length b)%nat.
Proof.
  induction a as [| x a IH]; [reflexivity |].
  rewrite append_cons. cbn [String.length]. rewrite IH. reflexivity.
Qed.

Lemma append_cancel_r (s a b : string) : a +:+ s = b +:+ s -> a = b.
Proof.
  revert b. induction a as [| x a IH]; intros [| y b] H.
  - reflexivity.
  - apply (f_equal String.length) in H. rewrite append_nil_l, append_cons in H.
    cbn [String.length] in H. rewrite length_append in H. lia.
  - apply (f_equal String.length) in H. rewrite append_nil_l, append_cons in H.
    cbn [String.length] in H. rewrite length_append in H. lia.
  - rewrite !append_cons in H. injection H as -> H. f_equal. apply IH. exact H.
Qed.

Lemma prefix_append (a b : string) : String.prefix a (a +:+ b) = true.
Proof.
  induction a as [| x a IH]; [destruct b; reflexivity |].
  rewrite append_cons. cbn [String.prefix].
  destruct (ascii_dec x x) as [_ | Hne]; [exact IH | congruence].
Qed.

Lemma rev_app_append (s acc : string) :
  String.rev_app s acc = String.rev_app s "" +:+ acc.
Proof.
  revert acc. induction s as [| x s IH]; intros acc; cbn [String.rev_app]; [reflexivity |].
  rewrite (IH (String x acc)), (IH (String x "")), append_assoc. reflexivity.
Qed.

Lemma rev_app_of_append (a b acc : string) :
  String.rev_app (a +:+ b) acc = String.rev_app b (String.rev_app a acc).
Proof.
  revert acc. induction a as [| x a IH]; intros acc; [reflexivity |].
  rewrite append_cons. cbn [String.rev_app]. apply IH.
Qed.

Lemma rev_append (a b : string) : String.rev (a +:+ b) = String.rev b +:+ String.rev a.
Proof.
  unfold String.rev. rewrite rev_app_of_append. apply rev_app_append.
Qed.

End StringFacts.

(** ** More on the response cache *)

Module APICacheMore.

Import APICache APICacheFacts APICacheCases StringFacts.

Lemma path_ends_with_json (cache_key : string) :
  ends_with dot_json (_get_cache_path cache_key) = true.
Proof.
  unfold ends_with, _get_cache_path. rewrite rev_append. apply prefix_append.
Qed.

Lemma path_inj (k1 k2 : string) : _get_cache_path k1 = _get_cache_path k2 -> k1 = k2.
Proof. unfold _get_cache_path. apply append_cancel_r. Qed.

(** [get] on a file that is there, by the fate of the file. *)
Lemma get_by_fate (self : t) (now : Q) (content model style : string) (fs : files)
      (b : body) :
  fs !! _get_cache_path (_get_cache_key content model style) = Some b ->
  get self now content model style fs
  = match fate_of self now b with
    | Serve r => (Return r, fs)
    | Drop => (Return Json.Null,
               delete (_get_cache_path (_get_cache_key content model style)) fs)
    | Fail e => (Raise e, fs)
    end.
Proof.
  intros E. unfold fate_of, past_ttl, lookup_response.
  io_step. rewrite (exists_present _ _ _ E), E. io_step.
  destruct b as [| d]; cbn [json_load].
  - io_step. rewrite (exists_present _ _ _ E), E. reflexivity.
  - destruct (Json.getitem d "timestamp") as [stamp | e].
    + destruct stamp; cbn [Json.rsub]; io_step; try reflexivity;
        (match goal with |- context [Qltb ?x ?y] => destruct (Qltb x y) end;
         [ rewrite E; reflexivity
         | destruct (Json.getitem d "response") as [r | e];
           [ reflexivity
           | destruct e; io_step; rewrite ?(exists_present _ _ _ E), ?E; reflexivity ] ]).
    + destruct e; io_step; rewrite ?(exists_present _ _ _ E), ?E; reflexivity.
Qed.

(** Reading a file raises one of three errors, of which [TypeError] alone is
    not handled. *)
Lemma past_ttl_raises (self : t) (now : Q) (b : body) (e : exn) :
  past_ttl self now b = Raise e ->
  e = JSONDecodeError \/ e = KeyError \/ e = TypeError.
Proof.
  unfold past_ttl. destruct b as [| d]; cbn [json_load].
  - intros H. injection H as <-. left. reflexivity.
  - unfold Json.getitem. destruct d as [| ? | ? | ? | ? | items];
      try (intros H; injection H as <-; right; right; reflexivity).
    destruct (Json.dict_get "timestamp" items) as [stamp |].
    + destruct stamp; cbn [Json.rsub]; try discriminate;
        intros H; injection H as <-; right; right; reflexivity.
    + intros H. injection H as <-. right. left. reflexivity.
Qed.

Lemma lookup_response_raises (b : body) (e : exn) :
  lookup_response b = Raise e ->
  e = JSONDecodeError \/ e = KeyError \/ e = TypeError.
Proof.
  unfold lookup_response. destruct b as [| d].
  - intros H. injection H as <-. left. reflexivity.
  - unfold Json.getitem. destruct d as [| ? | ? | ? | ? | items];
      try (intros H; injection H as <-; right; right; reflexivity).
    destruct (Json.dict_get "response" items); [discriminate |].
    intros H. injection H as <-. right. left. reflexivity.
Qed.

(** What [get] returns depends on its own file only. *)
Lemma get_depends_on_own_file (self : t) (now : Q) (content model style : string)
      (fs1 fs2 : files) :
  fs1 !! _get_cache_path (_get_cache_key content model style)
  = fs2 !! _get_cache_path (_get_cache_key content model style) ->
  fst (get self now content model style fs1) = fst (get self now content model style fs2).
Proof.
  intros Hsame.
  destruct (fs2 !! _get_cache_path (_get_cache_key content model style)) as [b |] eqn:E2.
  - rewrite (get_by_fate self now content model style fs1 b Hsame).
    rewrite (get_by_fate self now content model style fs2 b E2).
    destruct (fate_of self now b); reflexivity.
  - rewrite (get_missing self now content model style fs1 Hsame).
    rewrite (get_missing self now content model style fs2 E2). reflexivity.
Qed.

Local Abbreviation sweep_body self now :=
  (fun (cache_file : string) (count : nat) =>
     try_except
       (b <- open_read cache_file ;;
        data <- lift (json_load b) ;;
        stamp <- lift (Json.getitem data "timestamp") ;;
        age <- lift (Json.rsub now stamp) ;;
        if Qltb (ttl_seconds self) age
        then (unlink cache_file ;;; ret (S count))
        else ret count)%io
       corrupted
       (fun _ => unlink cache_file ;;; ret (S count))%io).

Lemma handled_dec (self : t) (now : Q) (b : body) :
  handled self now b \/ past_ttl self now b = Raise TypeError.
Proof.
  unfold handled. destruct (past_ttl self now b) as [gone | e] eqn:E; [left; exact I |].
  destruct (past_ttl_raises self now b e E) as [-> | [-> | ->]];
    [left; reflexivity | left; reflexivity | right; reflexivity].
Qed.

Lemma sweep_body_raises (self : t) (now : Q) (name : string) (b : body)
      (count : nat) (fs : files) :
  fs !! name = Some b ->
  past_ttl self now b = Raise TypeError ->
  sweep_body self now name count fs = (Raise TypeError, fs).
Proof.
  intros E Hb. unfold past_ttl in Hb. io_step. rewrite E. io_step.
  destruct b as [| d]; cbn [json_load] in Hb; [discriminate |]. io_step.
  destruct (Json.getitem d "timestamp") as [stamp | e].
  - destruct stamp; cbn [Json.rsub] in Hb; try discriminate; reflexivity.
  - injection Hb as ->. reflexivity.
Qed.

Lemma sweep_raises (self : t) (now : Q) (names : list string) :
  forall (fs : files) (count : nat),
    NoDup names ->
    (forall name, name ∈ names -> is_Some (fs !! name)) ->
    (exists name b,
        name ∈ names /\ fs !! name = Some b /\ past_ttl self now b = Raise TypeError) ->
    fst (for_each names (sweep_body self now) count fs) = Raise TypeError.
Proof.
  induction names as [| k rest IH]; intros fs count Hnd Hin (bad & b & Hbad & Eb & Hb).
  - apply elem_of_nil in Hbad. contradiction.
  - apply NoDup_cons in Hnd as [Hk Hnd].
    destruct (Hin k) as [bk Ek]; [left |].
    cbn [for_each]. unfold bind at 1.
    destruct (handled_dec self now bk) as [Hfine | Hwedge].
    + rewrite (clear_expired_step self now k bk count fs Ek Hfine).
      assert (Hne : bad <> k).
      { intros ->. rewrite Ek in Eb. injection Eb as ->.
        unfold handled in Hfine. rewrite Hb in Hfine. discriminate. }
      apply IH; [exact Hnd | |].
      * intros name Hname. assert (name <> k) by (intros ->; contradiction).
        destruct (swept self now bk); [rewrite lookup_delete_ne by congruence |];
          apply Hin; right; exact Hname.
      * exists bad, b. apply elem_of_cons in Hbad as [-> | Hbad]; [contradiction |].
        split; [exact Hbad |]. split; [| exact Hb].
        destruct (swept self now bk); [rewrite lookup_delete_ne by congruence |]; exact Eb.
    + rewrite (sweep_body_raises self now k bk count fs Ek Hwedge). reflexivity.
Qed.

(** Where the sweep stops: the file that raises is still there, and the
    sweep has only removed files. *)
Lemma sweep_stops (self : t) (now : Q) (names : list string) :
  forall (fs : files) (count : nat) (bad : string) (b : body),
    NoDup names ->
    (forall name, name ∈ names -> is_Some (fs !! name)) ->
    bad ∈ names -> fs !! bad = Some b -> past_ttl self now b = Raise TypeError ->
    exists fs' : files,
      for_each names (sweep_body self now) count fs = (Raise TypeError, fs')
      /\ fs' !! bad = Some b
      /\ (forall k v, fs' !! k = Some v -> fs !! k = Some v).
Proof.
  induction names as [| k rest IH]; intros fs count bad b Hnd Hin Hbad Eb Hb.
  - apply elem_of_nil in Hbad. contradiction.
  - apply NoDup_cons in Hnd as [Hk Hnd].
    destruct (Hin k) as [bk Ek]; [left |].
    cbn [for_each]. unfold bind at 1.
    destruct (handled_dec self now bk) as [Hfine | Hwedge].
    + rewrite (clear_expired_step self now k bk count fs Ek Hfine).
      assert (Hne : bad <> k).
      { intros ->. rewrite Ek in Eb. injection Eb as ->.
        unfold handled in Hfine. rewrite Hb in Hfine. discriminate. }
      apply elem_of_cons in Hbad as [-> | Hbad]; [contradiction |].
      destruct (IH (if swept self now bk then delete k fs else fs)
                   (if swept self now bk then S count else count) bad b Hnd)
        as (fs' & Hrun & Hkept & Hsub); try assumption.
      * intros name Hname. assert (name <> k) by (intros ->; contradiction).
        destruct (swept self now bk); [rewrite lookup_delete_ne by congruence |];
          apply Hin; right; exact Hname.
      * destruct (swept self now bk); [rewrite lookup_delete_ne by congruence |]; exact Eb.
      * exists fs'. split; [exact Hrun |]. split; [exact Hkept |].
        intros k' v Hv. apply Hsub in Hv.
        destruct (swept self now bk); [| exact Hv].
        apply lookup_delete_Some in Hv as [_ Hv]. exact Hv.
    + rewrite (sweep_body_raises self now k bk count fs Ek Hwedge).
      exists fs. split; [reflexivity |]. split; [exact Eb |]. intros k' v Hv. exact Hv.
Qed.

(** The directories on which the sweep returns. *)
Lemma unparsable_swept (self : t) (now : Q) (b : body) :
  unparsable b -> handled self now b /\ swept self now b = true.
Proof.
  unfold handled, swept, past_ttl.
  intros [-> | (d & -> & Hts)]; cbn [json_load]; [| rewrite Hts]; split; reflexivity.
Qed.

Lemma stamped_swept (self : t) (now : Q) (b : body) (stamp : Q) :
  stamped b stamp ->
  handled self now b /\ swept self now b = Qltb (ttl_seconds self) (now - stamp).
Proof.
  unfold handled, swept, past_ttl.
  intros (d & -> & Hts). cbn [json_load]. rewrite Hts. cbn [Json.rsub].
  split; [exact I | reflexivity].
Qed.

Lemma entries_handled (self : t) (now : Q) (fs : files) :
  (forall name b,
      fs !! name = Some b -> ends_with dot_json name = true ->
      unparsable b \/ exists stamp, stamped b stamp) ->
  forall name b,
    fs !! name = Some b -> ends_with dot_json name = true -> handled self now b.
Proof.
  intros Hdir name b Hb Hends.
  destruct (Hdir name b Hb Hends) as [Hun | [stamp Hst]].
  - apply (unparsable_swept self now b Hun).
  - apply (stamped_swept self now b stamp Hst).
Qed.

(** A file the sweep removes is one [get] drops. *)
Lemma swept_dropped (self : t) (now : Q) (b : body) :
  handled self now b -> swept self now b = true -> fate_of self now b = Drop.
Proof.
  unfold handled, swept, fate_of.
  destruct (past_ttl self now b) as [gone | e].
  - intros _ ->. reflexivity.
  - intros _ ->. reflexivity.
Qed.

End APICacheMore.

Import APICache APICacheFacts APICacheCases APICacheMore.

(** X1.  The last write wins: after two [set]s for one triple, the second
    one granted, [get] within the time-to-live of the second returns the
    second response, whatever the first one stored. *)
Theorem last_set_wins
        (self : t) (fs : files) (granted : bool) (t1 t2 t3 : Q)
        (content model style first second : string) :
  (t3 - t2 <= ttl_seconds self)%Q ->
  let fs1 := snd (set granted self t1 content model first style fs) in
  let fs2 := snd (set true self t2 content model second style fs1) in
  get self t3 content model style fs2 = (Return (Json.Str second), fs2).
Proof.
  intros Hage fs1 fs2. unfold fs2. rewrite set_granted. cbn [snd].
  eapply get_fresh; [apply lookup_insert_eq | apply entry_timestamp | exact Hage
                    | apply entry_response].
Qed.

Lemma last_set_wins_witness :
  (7 - 5 <= 86400)%Q
  /\ fst (get {| cache_dir := ".logchange_cache"; ttl_seconds := 86400 |} 7
              "diff-a" "model-x" ""
              (snd (set true {| cache_dir := ".logchange_cache"; ttl_seconds := 86400 |} 5
                        "diff-a" "model-x" "new" ""
                        (snd (set true {| cache_dir := ".logchange_cache";
                                          ttl_seconds := 86400 |} 0
                                  "diff-a" "model-x" "old" "" ∅)))))
     = Return (Json.Str "new").
Proof.
  split; [vm_compute; discriminate |].
  rewrite (last_set_wins {| cache_dir := ".logchange_cache"; ttl_seconds := 86400 |}
             ∅ true 0 5 7 "diff-a" "model-x" "" "old" "new");
    [reflexivity | vm_compute; discriminate].
Defined.

(** X2.  Entries do not interfere: a [set] for one triple, granted or not,
    does not change what [get] returns for a triple with another key. *)
Theorem set_leaves_other_keys_alone
        (self : t) (fs : files) (granted : bool) (t_set now : Q)
        (content model style response content' model' style' : string) :
  _get_cache_key content model style <> _get_cache_key content' model' style' ->
  fst (get self now content' model' style'
           (snd (set granted self t_set content model response style fs)))
  = fst (get self now content' model' style' fs).
Proof.
  intros Hkeys. apply get_depends_on_own_file.
  destruct granted; [| reflexivity].
  rewrite set_granted. cbn [snd]. apply lookup_insert_ne.
  intros Hpath. apply Hkeys. apply path_inj. exact Hpath.
Qed.

Lemma set_leaves_other_keys_alone_witness :
  _get_cache_key "diff-a" "model-x" "" <> _get_cache_key "diff-b" "model-x" ""
  /\ fst (get {| cache_dir := ".logchange_cache"; ttl_seconds := 86400 |} 5
              "diff-b" "model-x" ""
              (snd (set true {| cache_dir := ".logchange_cache"; ttl_seconds := 86400 |} 0
                        "diff-a" "model-x" "resp" "" ∅)))
     = fst (get {| cache_dir := ".logchange_cache"; ttl_seconds := 86400 |} 5
                "diff-b" "model-x" "" ∅).
Proof.
  assert (Hkeys : _get_cache_key "diff-a" "model-x" "" <> _get_cache_key "diff-b" "model-x" "")
    by (intros H; vm_compute in H; discriminate H).
  split; [exact Hkeys |].
  apply (set_leaves_other_keys_alone
           {| cache_dir := ".logchange_cache"; ttl_seconds := 86400 |} ∅ true 0 5
           "diff-a" "model-x" "" "resp" "diff-b" "model-x" "" Hkeys).
Defined.

(** X3.  [get] never creates or rewrites a file: it leaves the directory as
    it is or removes the one file of its own key, also when it raises. *)
Theorem get_removes_at_most_its_own_file
        (self : t) (fs : files) (now : Q) (content model style : string) :
  snd (get self now content model style fs) = fs
  \/ snd (get self now content model style fs)
     = delete (_get_cache_path (_get_cache_key content model style)) fs.
Proof.
  destruct (fs !! _get_cache_path (_get_cache_key content model style)) as [b |] eqn:E.
  - rewrite (get_by_fate self now content model style fs b E).
    destruct (fate_of self now b); [left | right | left]; reflexivity.
  - rewrite (get_missing self now content model style fs E). left. reflexivity.
Qed.

(** X4.  A record that lacks the key [timestamp], or that is fresh and lacks
    the key [response], counts as corrupted: [get] returns [None] and
    removes the file. *)
Theorem get_drops_records_with_missing_keys
        (self : t) (fs : files) (now : Q) (content model style : string)
        (d : Json.value) :
  fs !! _get_cache_path (_get_cache_key content model style) = Some (Document d) ->
  (Json.getitem d "timestamp" = Raise KeyError
   \/ exists stamp : Q,
        Json.getitem d "timestamp" = Return (Json.Num stamp)
        /\ (now - stamp <= ttl_seconds self)%Q
        /\ Json.getitem d "response" = Raise KeyError) ->
  get self now content model style fs
  = (Return Json.Null, delete (_get_cache_path (_get_cache_key content model style)) fs).
Proof.
  intros E Hkeys. rewrite (get_by_fate self now content model style fs _ E).
  unfold fate_of, past_ttl, lookup_response. cbn [json_load].
  destruct Hkeys as [-> | (stamp & -> & Hage & ->)]; [reflexivity |].
  cbn [Json.rsub]. apply Qltb_ge in Hage. rewrite Hage. reflexivity.
Qed.

Lemma get_drops_records_with_missing_keys_witness :
  let self := {| cache_dir := ".logchange_cache"; ttl_seconds := 86400 |} in
  let path := _get_cache_path (_get_cache_key "diff-a" "model-x" "") in
  let d := Json.Obj [("timestamp"%string, Json.Num 0)] in
  get self 5 "diff-a" "model-x" "" (<[path := Document d]> ∅)
  = (Return Json.Null, delete path (<[path := Document d]> ∅)).
Proof.
  intros self path d.
  apply (get_drops_records_with_missing_keys self (<[path := Document d]> ∅) 5
           "diff-a" "model-x" "" d).
  - apply lookup_insert_eq.
  - right. exists 0%Q. split; [reflexivity |]. split; [vm_compute; discriminate | reflexivity].
Defined.

(** X5.  After [clear], [get] misses for every triple. *)
Theorem get_misses_after_clear
        (self : t) (fs : files) (now : Q) (content model style : string) :
  fst (get self now content model style (snd (clear self fs))) = Return Json.Null.
Proof.
  destruct (clear_spec self fs) as (n & fs' & Hrun & Hlook & _).
  rewrite Hrun. cbn [snd]. rewrite get_missing; [reflexivity |].
  rewrite Hlook, path_ends_with_json. reflexivity.
Qed.

(** X6.  [clear] is idempotent: a second [clear] finds nothing to remove,
    returns 0 and leaves the directory as the first one left it. *)
Theorem clear_twice_removes_nothing (self : t) (fs : files) :
  clear self (snd (clear self fs)) = (Return 0%nat, snd (clear self fs)).
Proof.
  destruct (clear_spec self fs) as (n & fs1 & Hrun & Hlook & _).
  rewrite Hrun. cbn [snd].
  destruct (clear_spec self fs1) as (m & fs2 & Hrun2 & Hlook2 & Hsize2).
  assert (Hsame : fs2 = fs1).
  { apply map_eq. intros name. rewrite Hlook2, Hlook.
    destruct (ends_with dot_json name); reflexivity. }
  subst fs2. rewrite Hrun2. f_equal. f_equal. lia.
Qed.

(** X7.  [clear_expired] at the same instant is idempotent: in a directory
    whose [*.json] files are each unparsable or a record with a numeric
    timestamp, a second sweep returns 0 and changes nothing. *)
Theorem clear_expired_twice_removes_nothing (self : APICache.t) (now : Q) (fs : files) :
  (forall name b,
      fs !! name = Some b -> ends_with dot_json name = true ->
      unparsable b \/ exists stamp, stamped b stamp) ->
  clear_expired self now (snd (clear_expired self now fs))
  = (Return 0%nat, snd (clear_expired self now fs)).
Proof.
  intros Hdir.
  destruct (clear_expired_spec self now fs (entries_handled self now fs Hdir))
    as (n & fs1 & Hrun & Hlook & _).
  rewrite Hrun. cbn [snd].
  assert (Hkept : forall name b,
             fs1 !! name = Some b ->
             fs !! name = Some b /\ ends_with dot_json name && swept self now b = false).
  { intros name b. rewrite Hlook. destruct (fs !! name) as [b' |]; [| discriminate].
    destruct (ends_with dot_json name && swept self now b') eqn:Hgo; [discriminate |].
    intros H. injection H as <-. split; [reflexivity | exact Hgo]. }
  destruct (clear_expired_spec self now fs1) as (m & fs2 & Hrun2 & Hlook2 & Hsize2).
  { intros name b Hb Hends. destruct (Hkept name b Hb) as [Hb0 _].
    exact (entries_handled self now fs Hdir name b Hb0 Hends). }
  assert (Hsame : fs2 = fs1).
  { apply map_eq. intros name. rewrite Hlook2.
    destruct (fs1 !! name) as [b |] eqn:E; [| reflexivity].
    destruct (Hkept name b E) as [_ ->]. reflexivity. }
  subst fs2. rewrite Hrun2. f_equal. f_equal. lia.
Qed.

Lemma clear_expired_twice_removes_nothing_witness :
  let self := {| cache_dir := ".logchange_cache"; ttl_seconds := 10 |} in
  let fs : files :=
    <["a.json" := Garbled]> (<["c.json" := Document (APICache.entry 95 "new" "m")]> ∅) in
  clear_expired self 100 (snd (clear_expired self 100 fs))
  = (Return 0%nat, snd (clear_expired self 100 fs)).
Proof.
  intros self fs. apply (clear_expired_twice_removes_nothing self 100 fs).
  intros name b Hb _. unfold fs in Hb.
  rewrite !lookup_insert_Some, lookup_empty in Hb.
  destruct Hb as [[_ <-] | [_ [[_ <-] | [_ Hb]]]].
  - left. left. reflexivity.
  - right. exists 95%Q, (APICache.entry 95 "new" "m"). split; reflexivity.
  - discriminate.
Defined.

(** X8.  The sweep is invisible to [get]: in such a directory, what [get]
    returns at an instant is the same before and after [clear_expired] at
    that instant; the sweep removes only entries [get] would no longer
    serve. *)
Theorem clear_expired_is_invisible_to_get
        (self : APICache.t) (now : Q) (fs : files) (content model style : string) :
  (forall name b,
      fs !! name = Some b -> ends_with dot_json name = true ->
      unparsable b \/ exists stamp, stamped b stamp) ->
  fst (get self now content model style (snd (clear_expired self now fs)))
  = fst (get self now content model style fs).
Proof.
  intros Hdir.
  destruct (clear_expired_spec self now fs (entries_handled self now fs Hdir))
    as (n & fs1 & Hrun & Hlook & _).
  rewrite Hrun. cbn [snd].
  pose proof (Hlook (_get_cache_path (_get_cache_key content model style))) as Hpath.
  rewrite path_ends_with_json in Hpath. cbn [andb] in Hpath.
  destruct (fs !! _get_cache_path (_get_cache_key content model style)) as [b |] eqn:E.
  - destruct (swept self now b) eqn:Hswept.
    + rewrite (get_missing self now content model style fs1 Hpath).
      rewrite (get_by_fate self now content model style fs b E).
      rewrite (swept_dropped self now b); [reflexivity | | exact Hswept].
      exact (entries_handled self now fs Hdir _ b E (path_ends_with_json _)).
    + apply get_depends_on_own_file. rewrite Hpath, E. reflexivity.
  - apply get_depends_on_own_file. rewrite Hpath, E. reflexivity.
Qed.

Lemma clear_expired_is_invisible_to_get_witness :
  let self := {| cache_dir := ".logchange_cache"; ttl_seconds := 10 |} in
  let path := _get_cache_path (_get_cache_key "diff-a" "model-x" "") in
  let fs : files :=
    <["a.json" := Garbled]> (<[path := Document (APICache.entry 95 "new" "model-x")]> ∅) in
  fst (get self 100 "diff-a" "model-x" "" (snd (clear_expired self 100 fs)))
  = fst (get self 100 "diff-a" "model-x" "" fs).
Proof.
  intros self path fs.
  apply (clear_expired_is_invisible_to_get self 100 fs "diff-a" "model-x" "").
  intros name b Hb _. unfold fs in Hb.
  rewrite !lookup_insert_Some, lookup_empty in Hb.
  destruct Hb as [[_ <-] | [_ [[_ <-] | [_ Hb]]]].
  - left. left. reflexivity.
  - right. exists 95%Q, (APICache.entry 95 "new" "model-x"). split; reflexivity.
  - discriminate.
Defined.

(** C5.  [clear_expired] does not remove every corrupted entry and does
    not always return a count: a [*.json] file whose JSON is not a record,
    or whose timestamp is not a number, makes the sweep raise [TypeError].
    The sweep has then removed files only, the misshapen file is still in
    the directory, and every later sweep raises again. *)
Theorem clear_expired_fails_on_a_misshapen_entry
        (self : APICache.t) (now : Q) (fs : files) (name : string) (d : Json.value) :
  fs !! name = Some (Document d) ->
  ends_with dot_json name = true ->
  (Json.getitem d "timestamp" = Raise TypeError
   \/ exists v : Json.value,
        Json.getitem d "timestamp" = Return v /\ Json.rsub now v = Raise TypeError) ->
  exists fs' : files,
    clear_expired self now fs = (Raise TypeError, fs')
    /\ fs' !! name = Some (Document d)
    /\ (forall k b, fs' !! k = Some b -> fs !! k = Some b)
    /\ (forall later : Q, fst (clear_expired self later fs') = Raise TypeError).
Proof.
  intros E Hends Hshape.
  assert (Hbad : forall x : Q, past_ttl self x (Document d) = Raise TypeError).
  { intros x. unfold past_ttl. cbn [json_load].
    destruct Hshape as [-> | (v & -> & Hv)]; [reflexivity |].
    destruct v; cbn [Json.rsub] in *; try discriminate; reflexivity. }
  destruct (sweep_stops self now (json_names fs) fs 0 name (Document d))
    as (fs' & Hrun & Hkept & Hsub).
  - apply json_names_NoDup.
  - intros k Hk. apply elem_of_json_names in Hk as [_ Hk]. exact Hk.
  - apply elem_of_json_names. split; [exact Hends | eauto].
  - exact E.
  - apply Hbad.
  - exists fs'. split; [| split; [exact Hkept | split; [exact Hsub |]]].
    + unfold clear_expired, glob_json. unfold bind at 1. exact Hrun.
    + intros later. unfold clear_expired, glob_json. unfold bind at 1.
      apply sweep_raises.
      * apply json_names_NoDup.
      * intros k Hk. apply elem_of_json_names in Hk as [_ Hk]. exact Hk.
      * exists name, (Document d). split; [| split; [exact Hkept | apply Hbad]].
        apply elem_of_json_names. split; [exact Hends | eauto].
Qed.

Lemma clear_expired_fails_on_a_misshapen_entry_witness :
  let self := {| cache_dir := ".logchange_cache"; ttl_seconds := 10 |} in
  let fs : files :=
    <["a.json" := Document (Json.Arr [])]>
      (<["b.json" := Document (APICache.entry 0 "old" "m")]> ∅) in
  exists fs' : files,
    clear_expired self 100 fs = (Raise TypeError, fs')
    /\ fs' !! "a.json" = Some (Document (Json.Arr []))
    /\ fst (clear_expired self 200 fs') = Raise TypeError.
Proof.
  intros self fs.
  destruct (clear_expired_fails_on_a_misshapen_entry self 100 fs "a.json" (Json.Arr []))
    as (fs' & Hrun & Hkept & _ & Hagain).
  - vm_compute; reflexivity.
  - vm_compute; reflexivity.
  - left. reflexivity.
  - exists fs'. split; [exact Hrun |]. split; [exact Hkept | apply Hagain].
Defined.



(** ** More on the constructor *)

Module ConstructorFacts.

Import APICache APICacheFacts StringFacts.

Lemma contains_unfold (needle hay : string) :
  contains needle hay
  = if String.prefix needle hay then true
    else match hay with
         | EmptyString => false
         | String _ rest => contains needle rest
         end.
Proof. destruct hay; reflexivity. Qed.

Lemma contains_append (needle before after : string) :
  contains needle (before +:+ (needle +:+ after)) = true.
Proof.
  induction before as [| x before IH].
  - rewrite append_nil_l, contains_unfold, prefix_append. reflexivity.
  - rewrite append_cons, contains_unfold.
    destruct (String.prefix needle (String x (before +:+ (needle +:+ after))));
      [reflexivity | exact IH].
Qed.

Lemma mkdir_post (cache_dir : string) (h h1 : hostdir) :
  mkdir_exist_ok cache_dir h = (Return tt, h1) ->
  nodes h1 !! cache_dir = Some Directory
  /\ may_create h1 = may_create h
  /\ (forall name, name <> cache_dir -> nodes h1 !! name = nodes h !! name).
Proof.
  unfold mkdir_exist_ok.
  destruct (nodes h !! cache_dir) as [[| f] |] eqn:E.
  - intros H. injection H as <-. repeat split. exact E.
  - discriminate.
  - destruct (may_create h) eqn:Hcreate; [| discriminate].
    intros H. injection H as <-. cbn [with_nodes nodes may_create].
    split; [apply lookup_insert_eq |]. split; [exact Hcreate |].
    intros name Hne. apply lookup_insert_ne. congruence.
Qed.

Lemma add_to_gitignore_post (cache_dir : string) (h1 h2 : hostdir) :
  add_to_gitignore cache_dir h1 = (Return tt, h2) ->
  (exists f : textfile,
      nodes h2 !! gitignore = Some (File f)
      /\ readable f = true
      /\ contains cache_dir (text f) = true)
  /\ nodes h1 !! gitignore <> Some Directory
  /\ may_create h2 = may_create h1
  /\ (forall name, name <> gitignore -> nodes h2 !! name = nodes h1 !! name).
Proof.
  host_step.
  destruct (nodes h1 !! gitignore) as [[| f] |] eqn:E.
  - rewrite bool_decide_eq_true_2 by eauto. host_step. rewrite E. discriminate.
  - rewrite bool_decide_eq_true_2 by eauto. host_step. rewrite E.
    destruct (readable f) eqn:Hread; [| discriminate].
    destruct (contains cache_dir (text f)) eqn:Hin; host_step.
    + intros H. injection H as <-. split; [| repeat split; congruence].
      exists f. repeat split; assumption.
    + rewrite E. destruct (writable f); [| discriminate].
      intros H. injection H as <-. cbn [with_nodes nodes may_create].
      split; [| split; [discriminate | split; [reflexivity |]]].
      * eexists. split; [apply lookup_insert_eq |]. cbn [readable text].
        split; [exact Hread |].
        rewrite <- append_assoc. apply contains_append.
      * intros name Hne. apply lookup_insert_ne. congruence.
  - rewrite bool_decide_eq_false_2 by (intros [x Hx]; discriminate). host_step.
    rewrite E. destruct (may_create h1) eqn:Hcreate; [| discriminate].
    intros H. injection H as <-. cbn [with_nodes nodes may_create].
    split; [| split; [discriminate | split; [exact Hcreate |]]].
    + eexists. split; [apply lookup_insert_eq |]. cbn [readable text].
      split; [reflexivity |].
      rewrite <- (append_nil_l (cache_dir +:+ "/" +:+ newline)). apply contains_append.
    + intros name Hne. apply lookup_insert_ne. congruence.
Qed.

(** What a construction that returns has done. *)
Lemma init_post (cache_dir : string) (ttl : Q) (h h' : hostdir) (self : t) :
  __init__ cache_dir ttl h = (Return self, h') ->
  self = {| APICache.cache_dir := cache_dir; ttl_seconds := ttl |}
  /\ cache_dir <> gitignore
  /\ nodes h' !! cache_dir = Some Directory
  /\ (exists f : textfile,
         nodes h' !! gitignore = Some (File f)
         /\ readable f = true
         /\ contains cache_dir (text f) = true)
  /\ (forall name,
         name <> cache_dir -> name <> gitignore -> nodes h' !! name = nodes h !! name).
Proof.
  intros Hinit.
  destruct (mkdir_exist_ok cache_dir h) as [[[] | e] h1] eqn:Hmk;
    [| unfold __init__, bind in Hinit; rewrite Hmk in Hinit; discriminate].
  rewrite (init_after_mkdir cache_dir ttl h h1 Hmk) in Hinit.
  destruct (add_to_gitignore cache_dir h1) as [[[] | e] h2] eqn:Hreg; [| discriminate].
  injection Hinit as <- <-.
  destruct (mkdir_post cache_dir h h1 Hmk) as (Hdir & _ & Hrest1).
  destruct (add_to_gitignore_post cache_dir h1 h2 Hreg) as (Hfile & Hnodir & _ & Hrest2).
  assert (Hne : cache_dir <> gitignore) by (intros Heq; rewrite Heq in Hdir; contradiction).
  split; [reflexivity |]. split; [exact Hne |].
  split; [rewrite (Hrest2 cache_dir Hne); exact Hdir |].
  split; [exact Hfile |].
  intros name H1 H2. rewrite (Hrest2 name H2). apply Hrest1. exact H1.
Qed.

End ConstructorFacts.

Import ConstructorFacts.

(** X10.  When the constructor returns, the cache directory exists, and
    [.gitignore] is a readable file that mentions it; nothing else in the
    project directory has changed. *)
Theorem construction_registers_the_cache_directory
        (cache_dir : string) (ttl : Q) (h h' : hostdir) (self : APICache.t) :
  APICache.__init__ cache_dir ttl h = (Return self, h') ->
  APICache.cache_dir self = cache_dir
  /\ ttl_seconds self = ttl
  /\ nodes h' !! cache_dir = Some Directory
  /\ (exists f : textfile,
         nodes h' !! gitignore = Some (File f)
         /\ readable f = true
         /\ contains cache_dir (text f) = true)
  /\ (forall name,
         name <> cache_dir -> name <> gitignore -> nodes h' !! name = nodes h !! name).
Proof.
  intros Hinit.
  destruct (init_post cache_dir ttl h h' self Hinit) as (-> & _ & Hdir & Hfile & Hrest).
  repeat split; assumption.
Qed.

Lemma construction_registers_the_cache_directory_witness :
  exists (self : APICache.t) (h' : hostdir),
    APICache.__init__ ".logchange_cache" 86400 {| nodes := ∅; may_create := true |}
    = (Return self, h')
    /\ nodes h' !! ".logchange_cache" = Some Directory
    /\ exists f : textfile,
         nodes h' !! gitignore = Some (File f)
         /\ contains ".logchange_cache" (text f) = true.
Proof.
  destruct (APICache.__init__ ".logchange_cache" 86400 {| nodes := ∅; may_create := true |})
    as [[self | e] h'] eqn:Hinit; [| vm_compute in Hinit; discriminate Hinit].
  exists self, h'. split; [reflexivity |].
  destruct (construction_registers_the_cache_directory _ _ _ _ _ Hinit)
    as (_ & _ & Hdir & (f & Hf & _ & Hin) & _).
  split; [exact Hdir |]. exists f. split; [exact Hf | exact Hin].
Defined.

(** X11.  Construction is idempotent on the project directory: once a
    constructor has returned, constructing again with the same arguments
    returns the same object and changes nothing; [.gitignore] gets the
    entry once. *)
Theorem construction_twice_changes_nothing
        (cache_dir : string) (ttl : Q) (h h' : hostdir) (self : APICache.t) :
  APICache.__init__ cache_dir ttl h = (Return self, h') ->
  APICache.__init__ cache_dir ttl h' = (Return self, h').
Proof.
  intros Hinit.
  destruct (init_post cache_dir ttl h h' self Hinit)
    as (-> & _ & Hdir & (f & Hf & Hread & Hin) & _).
  host_step. rewrite Hdir. host_step.
  rewrite bool_decide_eq_true_2 by (rewrite Hf; eauto). host_step.
  rewrite Hf, Hread. host_step. rewrite Hin. reflexivity.
Qed.

Lemma construction_twice_changes_nothing_witness :
  exists (self : APICache.t) (h' : hostdir),
    APICache.__init__ ".logchange_cache" 86400
      {| nodes := <[".gitignore" := File {| text := "build/"; readable := true;
                                            writable := true |}]> ∅;
         may_create := true |}
    = (Return self, h')
    /\ APICache.__init__ ".logchange_cache" 86400 h' = (Return self, h').
Proof.
  destruct (APICache.__init__ ".logchange_cache" 86400
              {| nodes := <[".gitignore" := File {| text := "build/"; readable := true;
                                                    writable := true |}]> ∅;
                 may_create := true |})
    as [[self | e] h'] eqn:Hinit; [| vm_compute in Hinit; discriminate Hinit].
  exists self, h'. split; [reflexivity |].
  exact (construction_twice_changes_nothing _ _ _ _ _ Hinit).
Defined.

(** ** More on the rate limiter *)

Module RateLimiterMore.

Import RateLimiter RateLimiterFacts RateLimiterTrace.

(** How a returning call went, read off its result. *)
Lemma wait_if_needed_inv (now : Q) (self self' : t) (slept : option Q) :
  wait_if_needed now self = (Return slept, self') ->
  (slept = None /\ self' = with_calls self (recent now (calls self) ++ [now]))
  \/ (exists oldest : Q,
         py_min (recent now (calls self)) = Return oldest
         /\ slept = Some (60 - (now - oldest))%Q
         /\ self' = with_calls self [now]).
Proof.
  intros Hrun.
  destruct (Z.lt_ge_cases (Z.of_nat (List.length (recent now (calls self))))
                          (max_calls self)) as [Hlt | Hge].
  - rewrite (wait_if_needed_below now self Hlt) in Hrun. injection Hrun as <- <-.
    left. split; reflexivity.
  - destruct (recent now (calls self)) as [| c cs] eqn:Hrecent.
    + rewrite wait_if_needed_empty_window in Hrun by (cbn in Hge; lia || assumption).
      discriminate.
    + destruct (py_min_nonempty (recent now (calls self))) as [oldest Hmin].
      { rewrite Hrecent. discriminate. }
      rewrite <- Hrecent in Hge.
      destruct (wait_if_needed_at_ceiling now oldest self Hge Hmin) as [_ Heq].
      rewrite Heq in Hrun. injection Hrun as <- <-.
      right. exists oldest. rewrite <- Hrecent. split; [exact Hmin |]. split; reflexivity.
Qed.

Lemma recent_all (now : Q) (cs : list Q) :
  (forall c, In c cs -> (now - c < 60)%Q) -> recent now cs = cs.
Proof.
  unfold recent. induction cs as [| c cs IH]; intros Hall; [reflexivity |].
  cbn [List.filter]. rewrite (proj2 (Qltb_lt _ _) (Hall c (or_introl eq_refl))).
  rewrite IH; [reflexivity |]. intros c' Hc'. apply Hall. right. exact Hc'.
Qed.

(** Calls at one instant, all recorded calls being in its window and the
    ceiling far enough: none sleeps, all are appended. *)
Lemma run_below (n : Z) (now : Q) (j : nat) :
  forall cs : list Q,
    (forall c, In c cs -> (now - c < 60)%Q) ->
    (Z.of_nat (List.length cs + j) <= n)%Z ->
    run (repeat now j) {| max_calls := n; calls := cs |}
    = (Return (repeat None j), {| max_calls := n; calls := cs ++ repeat now j |}).
Proof.
  induction j as [| j IH]; intros cs Hall Hlen.
  - cbn [repeat run]. rewrite app_nil_r. reflexivity.
  - cbn [repeat run]. unfold bind at 1.
    rewrite wait_if_needed_below; cbn [calls max_calls]; rewrite (recent_all now cs Hall);
      [| lia].
    unfold with_calls. cbn [max_calls]. unfold bind at 1.
    rewrite IH.
    + rewrite <- app_assoc. reflexivity.
    + intros c Hc. apply in_app_or in Hc as [Hc | [<- | []]]; [apply Hall; exact Hc | lra].
    + rewrite length_app. cbn [List.length]. lia.
Qed.

Lemma run_app (a b : list Q) :
  forall self : t,
    run (a ++ b) self
    = match run a self with
      | (Return ra, s1) =>
          match run b s1 with
          | (Return rb, s2) => (Return (ra ++ rb), s2)
          | (Raise e, s2) => (Raise e, s2)
          end
      | (Raise e, s1) => (Raise e, s1)
      end.
Proof.
  induction a as [| now a IH]; intros self.
  - cbn [app run]. unfold ret. destruct (run b self) as [[rb | e] s2]; reflexivity.
  - cbn [app run]. unfold bind, ret.
    destruct (wait_if_needed now self) as [[slept | e] s0]; [| reflexivity].
    rewrite IH.
    destruct (run a s0) as [[ra | e] s1]; [| reflexivity].
    destruct (run b s1) as [[rb | e] s2]; reflexivity.
Qed.

Lemma issued_app (t1 t2 : list Q) (s1 s2 : list (option Q)) :
  List.length t1 = List.length s1 ->
  issued (t1 ++ t2) (s1 ++ s2) = issued t1 s1 ++ issued t2 s2.
Proof.
  unfold issued. revert s1. induction t1 as [| x t1 IH]; intros [| y s1] Hlen;
    try discriminate; [reflexivity |].
  cbn [app combine map]. f_equal. apply IH. injection Hlen as Hlen. exact Hlen.
Qed.

Lemma issued_at_once (now : Q) (k : nat) :
  issued (repeat now k) (repeat None k) = repeat now k.
Proof.
  unfold issued. induction k as [| k IH]; [reflexivity |].
  cbn [repeat combine map fst snd returned_at]. f_equal. exact IH.
Qed.

Lemma recent_app (now : Q) (a b : list Q) :
  recent now (a ++ b) = recent now a ++ recent now b.
Proof. unfold recent. apply List.filter_app. Qed.

End RateLimiterMore.

Import RateLimiter RateLimiterFacts RateLimiterTrace RateLimiterMore.

(** X12.  A call never sleeps more than 60 seconds: when no recorded call
    lies in the future of the clock reading, the time slept is positive and
    at most 60. *)
Theorem sleep_is_at_most_a_minute (now w : Q) (self self' : RateLimiter.t) :
  (forall c, In c (calls self) -> (c <= now)%Q) ->
  wait_if_needed now self = (Return (Some w), self') ->
  (0 < w)%Q /\ (w <= 60)%Q.
Proof.
  intros Hpast Hrun.
  destruct (wait_if_needed_inv now self self' (Some w) Hrun)
    as [[Hnone _] | (oldest & Hmin & Hslept & _)]; [discriminate |].
  injection Hslept as ->.
  apply py_min_In, recent_In in Hmin as [Hin Hwindow].
  specialize (Hpast oldest Hin). split; lra.
Qed.

Lemma sleep_is_at_most_a_minute_witness :
  exists (w : Q) (self' : RateLimiter.t),
    wait_if_needed 30 {| max_calls := 2; calls := [0; 10]%Q |} = (Return (Some w), self')
    /\ (0 < w)%Q /\ (w <= 60)%Q.
Proof.
  exists (60 - (30 - 0))%Q, {| max_calls := 2; calls := [30%Q] |}.
  assert (Hrun : wait_if_needed 30 {| max_calls := 2; calls := [0; 10]%Q |}
                 = (Return (Some (60 - (30 - 0))%Q), {| max_calls := 2; calls := [30%Q] |}))
    by reflexivity.
  split; [exact Hrun |].
  apply (sleep_is_at_most_a_minute 30 (60 - (30 - 0))%Q
           {| max_calls := 2; calls := [0; 10]%Q |}
           {| max_calls := 2; calls := [30%Q] |}); [| exact Hrun].
  intros c [<- | [<- | []]]; vm_compute; discriminate.
Defined.

(** X13.  When a call returns, the list of recorded calls holds the clock
    reading of this call, and otherwise only earlier recorded calls that are
    less than 60 seconds older; the ceiling is unchanged. *)
Theorem recorded_calls_are_recent
        (now : Q) (slept : option Q) (self self' : RateLimiter.t) :
  wait_if_needed now self = (Return slept, self') ->
  max_calls self' = max_calls self
  /\ In now (calls self')
  /\ (forall c, In c (calls self') ->
                (now - c < 60)%Q /\ (c = now \/ In c (calls self))).
Proof.
  intros Hrun.
  destruct (wait_if_needed_inv now self self' slept Hrun)
    as [[_ ->] | (oldest & _ & _ & ->)]; cbn [with_calls calls max_calls].
  - split; [reflexivity |]. split; [apply in_or_app; right; left; reflexivity |].
    intros c Hc. apply in_app_or in Hc as [Hc | [<- | []]].
    + apply recent_In in Hc as [Hin Hwin]. split; [exact Hwin | right; exact Hin].
    + split; [lra | left; reflexivity].
  - split; [reflexivity |]. split; [left; reflexivity |].
    intros c [<- | []]. split; [lra | left; reflexivity].
Qed.

Lemma recorded_calls_are_recent_witness :
  exists (slept : option Q) (self' : RateLimiter.t),
    wait_if_needed 100 {| max_calls := 5; calls := [0; 70]%Q |} = (Return slept, self')
    /\ calls self' = [70; 100]%Q.
Proof.
  exists None, {| max_calls := 5; calls := [70; 100]%Q |}.
  assert (Hrun : wait_if_needed 100 {| max_calls := 5; calls := [0; 70]%Q |}
                 = (Return None, {| max_calls := 5; calls := [70; 100]%Q |}))
    by reflexivity.
  split; [exact Hrun |].
  destruct (recorded_calls_are_recent 100 _ _ _ Hrun) as (_ & _ & _). reflexivity.
Defined.

Lemma fold_smaller_later (t0 later : Q) (k : nat) :
  (t0 <= later)%Q -> fold_left smaller (repeat later k) t0 = t0.
Proof.
  intros Hle. induction k as [| k IH]; [reflexivity |].
  cbn [repeat fold_left]. unfold smaller at 2.
  rewrite (proj2 (Qltb_ge later t0) Hle). exact IH.
Qed.

(** X14.  The ceiling bounds the recorded calls, not the calls made.  With
    [max_calls = m + 1], [m] at least 1: one call at [t0], [m] calls [d]
    seconds later, then one more, which sleeps [60 - d] and returns at
    [t0 + 60] but is recorded at [t0 + d]; the list then holds one call, so
    [m] further calls at [t0 + 60] go out at once.  At [t0 + 60], [2m + 1]
    calls have gone out within the last 60 seconds. *)
Theorem calls_made_can_exceed_the_ceiling (m : nat) (t0 d : Q) :
  (1 <= m)%nat ->
  (0 < d)%Q ->
  (d < 60)%Q ->
  let times := [t0] ++ repeat (t0 + d)%Q m ++ [(t0 + d)%Q] ++ repeat (t0 + 60)%Q m in
  let slept := [None] ++ repeat None m ++ [Some (60 - (t0 + d - t0))%Q] ++ repeat None m in
  fst (run times (RateLimiter.__init__ (Z.of_nat (S m)))) = Return slept
  /\ (S m < List.length (recent (t0 + 60) (issued times slept)))%nat.
Proof.
  intros Hm Hd Hd60 times slept. split.
  - unfold times, slept, RateLimiter.__init__.
    rewrite run_app. change (run [t0]) with (run (repeat t0 1)).
    rewrite (run_below (Z.of_nat (S m)) t0 1 []); [| intros c [] | cbn; lia].
    change ([] ++ repeat t0 1) with [t0]. cbv beta iota.
    rewrite run_app.
    rewrite (run_below (Z.of_nat (S m)) (t0 + d) m [t0]);
      [| intros c [<- | []]; lra | cbn [List.length]; lia].
    rewrite run_app.
    assert (Hrecent : recent (t0 + d) ([t0] ++ repeat (t0 + d)%Q m)
                      = [t0] ++ repeat (t0 + d)%Q m).
    { apply recent_all. intros c Hc. apply in_app_or in Hc as [[<- | []] | Hc]; [lra |].
      apply repeat_spec in Hc. subst c. lra. }
    assert (Hmin : py_min (recent (t0 + d) ([t0] ++ repeat (t0 + d)%Q m)) = Return t0).
    { rewrite Hrecent. cbn [app py_min]. rewrite fold_smaller_later by lra. reflexivity. }
    destruct (wait_if_needed_at_ceiling (t0 + d) t0
                {| max_calls := Z.of_nat (S m);
                   calls := [t0] ++ repeat (t0 + d)%Q m |}) as [_ Hwait].
    { cbn [calls max_calls]. rewrite Hrecent, length_app, repeat_length.
      cbn [List.length]. lia. }
    { exact Hmin. }
    cbn [run]. unfold bind at 1. rewrite Hwait. unfold bind, ret.
    unfold with_calls. cbn [max_calls].
    rewrite (run_below (Z.of_nat (S m)) (t0 + 60) m [(t0 + d)%Q]);
      [| intros c [<- | []]; lra | cbn [List.length]; lia].
    reflexivity.
  - unfold times, slept.
    rewrite issued_app by reflexivity.
    rewrite issued_app by (rewrite !repeat_length; reflexivity).
    rewrite issued_app by reflexivity.
    rewrite !issued_at_once. rewrite !recent_app, !length_app.
    rewrite (recent_repeat (t0 + d) (t0 + 60) m) by lra.
    rewrite (recent_repeat (t0 + 60) (t0 + 60) m) by lra.
    rewrite !repeat_length.
    assert (Hlate : recent (t0 + 60) (issued [(t0 + d)%Q] [Some (60 - (t0 + d - t0))%Q])
                    = [(t0 + d + (60 - (t0 + d - t0)))%Q]).
    { unfold issued, recent. cbn [combine map fst snd returned_at List.filter].
      rewrite (proj2 (Qltb_lt _ _)) by lra. reflexivity. }
    rewrite Hlate. cbn [List.length]. lia.
Qed.

Lemma calls_made_can_exceed_the_ceiling_witness :
  (1 <= 1)%nat /\ (0 < 30)%Q /\ (30 < 60)%Q
  /\ fst (run [0; 0 + 30; 0 + 30; 0 + 60]%Q (RateLimiter.__init__ 2))
     = Return [None; None; Some (60 - (0 + 30 - 0))%Q; None]
  /\ (2 < List.length
            (recent (0 + 60)
               (issued [0; 0 + 30; 0 + 30; 0 + 60]%Q
                       [None; None; Some (60 - (0 + 30 - 0))%Q; None])))%nat.
Proof.
  split; [lia |]. split; [reflexivity |]. split; [reflexivity |].
  apply (calls_made_can_exceed_the_ceiling 1 0 30); [lia | reflexivity | reflexivity].
Defined.

(** ** More on summarizing *)

Module SummarizerMore.

Import Summarizer SummarizerFacts Summaries StringFacts.

Lemma for_each_app {S A B : Type} (xs ys : list A) (body : A -> B -> io S B) :
  forall (acc : B) (s : S),
    for_each (xs ++ ys) body acc s
    = match for_each xs body acc s with
      | (Return acc', s') => for_each ys body acc' s'
      | (Raise e, s') => (Raise e, s')
      end.
Proof.
  induction xs as [| x xs IH]; intros acc s; [reflexivity |].
  cbn [app for_each]. unfold bind.
  destruct (body x acc s) as [[acc1 | e] s1]; [apply IH | reflexivity].
Qed.

Lemma length_rev_app (s acc : string) :
  String.length (String.rev_app s acc) = (String.length s + String.length acc)%nat.
Proof.
  revert acc. induction s as [| x s IH]; intros acc; cbn [String.rev_app String.length];
    [reflexivity |].
  rewrite IH. cbn [String.length]. lia.
Qed.

Lemma length_lstrip (s : string) : (String.length (lstrip s) <= String.length s)%nat.
Proof.
  induction s as [| x s IH]; cbn [lstrip]; [lia |].
  destruct (is_space x); cbn [String.length]; lia.
Qed.

Lemma length_strip (s : string) : (String.length (strip s) <= String.length s)%nat.
Proof.
  unfold strip, String.rev. rewrite length_rev_app. cbn [String.length].
  pose proof (length_lstrip (String.rev_app (lstrip s) "")) as H1.
  rewrite length_rev_app in H1. cbn [String.length] in H1.
  pose proof (length_lstrip s). lia.
Qed.

Lemma length_substring_0 (n : nat) (s : string) :
  String.length (String.substring 0 n s) = Nat.min n (String.length s).
Proof.
  revert s. induction n as [| n IH]; intros [| x s]; cbn [String.substring String.length];
    try reflexivity.
  rewrite IH. reflexivity.
Qed.

Lemma length_prompt_of (commit_message diff : string) :
  String.length (prompt_of commit_message diff)
  = (278 + String.length commit_message + Nat.min 3000 (String.length diff))%nat.
Proof.
  unfold prompt_of. cbn [String.concat].
  rewrite !length_append, length_substring_0.
  change (String.length APICache.newline) with 1%nat.
  cbn [String.length]. lia.
Qed.

(** The summary does not depend on the log. *)
Lemma summarize_commit_log
      (create : string -> list (string * string) -> Z -> outcome (list (option string)))
      (c : commit) (model : string) (max_tokens : Z) (l l' : log) :
  fst (summarize_commit create c model max_tokens l)
  = fst (summarize_commit create c model max_tokens l').
Proof.
  unfold summarize_commit, try_except, bind, lift, ret, log_error.
  destruct (create model (messages_of (prompt_of (strip (message c)) (get_commit_diff c)))
                   max_tokens) as [[| [txt |] rest] | e]; try reflexivity.
  destruct (is_Exception e); reflexivity.
Qed.

End SummarizerMore.

Import Summarizer SummarizerFacts Summaries SummarizerMore.

(** X15.  An error of the provider that is not an [Exception] (a keyboard
    interrupt) is not swallowed: [summarize_commit] raises it without
    logging, and the loop of [generate_changelog] stops there, returns no
    entries, and attempts none of the later commits. *)
Theorem interruption_stops_the_batch
        (create : string -> list (string * string) -> Z -> outcome (list (option string)))
        (format_date : Z -> string) (model : string) (max_tokens : Z) :
  (forall (c : commit) (l : log) (e : exn),
      is_Exception e = false ->
      create model (messages_of (prompt_for c)) max_tokens = Raise e ->
      summarize_commit create c model max_tokens l = (Raise e, l))
  /\ (forall (before after : list commit) (c : commit) (l : log) (e : exn),
        (forall c' e', In c' before ->
                       create model (messages_of (prompt_for c')) max_tokens = Raise e' ->
                       is_Exception e' = true) ->
        is_Exception e = false ->
        create model (messages_of (prompt_for c)) max_tokens = Raise e ->
        changelog_entries create format_date (before ++ c :: after) model max_tokens l
        = (Raise e,
           snd (changelog_entries create format_date before model max_tokens l))).
Proof.
  assert (Hone : forall (c : commit) (l : log) (e : exn),
             is_Exception e = false ->
             create model (messages_of (prompt_for c)) max_tokens = Raise e ->
             summarize_commit create c model max_tokens l = (Raise e, l)).
  { intros c l e Hexc Hraise. unfold summarize_commit, try_except, bind, lift.
    fold (prompt_for c). rewrite Hraise, Hexc. reflexivity. }
  split; [exact Hone |].
  intros before after c l e Hbefore Hexc Hraise.
  unfold changelog_entries. rewrite for_each_app.
  destruct (changelog_loop create format_date model max_tokens before [] l Hbefore)
    as (entries & l1 & Hrun & _).
  cbv zeta in Hrun. rewrite Hrun. cbn [snd for_each]. unfold bind at 1. unfold bind at 1.
  rewrite (Hone c l1 e Hexc Hraise). reflexivity.
Qed.

Lemma interruption_stops_the_batch_witness :
  let interrupted : string -> list (string * string) -> Z -> outcome (list (option string)) :=
    fun _ _ _ => Raise KeyboardInterrupt in
  let c1 := {| hexsha := "0123456789abcdef"; message := "Fix parser ";
               patches := ["+ a"; "- b"]; committed_date := 0;
               author_name := "A"; author_email := "a@example.org" |} in
  is_Exception KeyboardInterrupt = false
  /\ changelog_entries interrupted (fun _ => "1970-01-01"%string) ([] ++ c1 :: [c1])
                       "gpt-4" 300 []
     = (Raise KeyboardInterrupt, []).
Proof.
  intros interrupted c1. split; [reflexivity |].
  apply (proj2 (interruption_stops_the_batch interrupted (fun _ => "1970-01-01"%string)
                  "gpt-4" 300) [] [c1] c1 [] KeyboardInterrupt).
  - intros c' e' [].
  - reflexivity.
  - reflexivity.
Defined.

(** X16.  What [summarize_commit] makes of a response: the stripped text of
    the first choice, the later choices being ignored and nothing logged;
    the sentinel, with an [AttributeError] logged, when the first choice has
    no text; the sentinel, with an [IndexError] logged, when there is no
    choice. *)
Theorem summary_of_each_response
        (create : string -> list (string * string) -> Z -> outcome (list (option string)))
        (c : commit) (model : string) (max_tokens : Z) (l : log) :
  (forall (txt : string) (rest : list (option string)),
      create model (messages_of (prompt_for c)) max_tokens = Return (Some txt :: rest) ->
      summarize_commit create c model max_tokens l = (Return (strip txt), l))
  /\ (forall rest : list (option string),
        create model (messages_of (prompt_for c)) max_tokens = Return (None :: rest) ->
        summarize_commit create c model max_tokens l
        = (Return "Summary unavailable."%string,
           l ++ [(String.substring 0 7 (hexsha c), AttributeError)]))
  /\ (create model (messages_of (prompt_for c)) max_tokens = Return [] ->
      summarize_commit create c model max_tokens l
      = (Return "Summary unavailable."%string,
         l ++ [(String.substring 0 7 (hexsha c), IndexError)])).
Proof.
  repeat split; intros; unfold summarize_commit, try_except, bind, lift;
    fold (prompt_for c);
    match goal with H : create _ _ _ = _ |- _ => rewrite H end; reflexivity.
Qed.

Lemma summary_of_each_response_witness :
  let c1 := {| hexsha := "0123456789abcdef"; message := "Fix parser ";
               patches := ["+ a"; "- b"]; committed_date := 0;
               author_name := "A"; author_email := "a@example.org" |} in
  summarize_commit (fun _ _ _ => Return [Some "  Fixes the parser. "%string; None])
                   c1 "gpt-4" 300 []
  = (Return "Fixes the parser."%string, [])
  /\ summarize_commit (fun _ _ _ => Return []) c1 "gpt-4" 300 []
     = (Return "Summary unavailable."%string, [("0123456"%string, IndexError)]).
Proof.
  intros c1. split.
  - apply (proj1 (summary_of_each_response
                    (fun _ _ _ => Return [Some "  Fixes the parser. "%string; None])
                    c1 "gpt-4" 300 []) "  Fixes the parser. "%string [None]).
    reflexivity.
  - apply (proj2 (proj2 (summary_of_each_response (fun _ _ _ => Return [])
                           c1 "gpt-4" 300 []))).
    reflexivity.
Defined.

(** X17.  The prompt is bounded whatever the size of the diff: it carries at
    most 3000 characters of it, so its length is at most 3278 plus the
    length of the commit message. *)
Theorem prompt_length_is_bounded (c : commit) :
  (String.length (prompt_for c) <= 3278 + String.length (message c))%nat
  /\ String.length (prompt_for c)
     = (278 + String.length (strip (message c))
        + Nat.min 3000 (String.length (get_commit_diff c)))%nat.
Proof.
  unfold prompt_for. rewrite length_prompt_of.
  pose proof (length_strip (message c)).
  pose proof (Nat.le_min_l 3000 (String.length (get_commit_diff c))).
  split; [lia | reflexivity].
Qed.

Module SummariesFacts.

Import Summarizer SummarizerFacts Summaries SummarizerMore.

Section Collaborators.

Variable create : string -> list (string * string) -> Z -> outcome (list (option string)).
Variable format_date : Z -> string.

Lemma summaries_loop (model : string) (max_tokens : Z) (commits : list commit) :
  forall (acc : gmap string entry) (l : log),
    (forall c e, In c commits ->
                 create model (messages_of (prompt_for c)) max_tokens = Raise e ->
                 is_Exception e = true) ->
    exists (summaries : gmap string entry) (l' : log),
      for_each commits
        (fun c summaries =>
           let i := get_commit_info format_date c in
           (s <- summarize_commit create c model max_tokens ;;
            ret (<[hash i := {| commit_info := i; summary := s |}]> summaries))%io)
        acc l
      = (Return summaries, l')
      /\ size summaries <= size acc + List.length commits
      /\ (forall k : string,
            (forall c, In c commits -> String.substring 0 7 (hexsha c) <> k) ->
            summaries !! k = acc !! k).
Proof.
  induction commits as [| c rest IH]; intros acc l Hexc.
  - exists acc, l. split; [reflexivity |]. split; [cbn; lia | reflexivity].
  - destruct (summarize_commit_returns create c model max_tokens l) as (s & l1 & Hs & _).
    { intros e. apply Hexc. left. reflexivity. }
    destruct (IH (<[hash (get_commit_info format_date c)
                    := {| commit_info := get_commit_info format_date c; summary := s |}]> acc)
                 l1)
      as (summaries & l' & Hrun & Hsize & Hkeep).
    { intros c' e Hin. apply Hexc. right. exact Hin. }
    exists summaries, l'. split; [| split].
    + cbn [for_each]. unfold bind at 1. cbv zeta. unfold bind at 1. rewrite Hs.
      cbv beta iota. unfold ret at 1. cbv zeta in Hrun. exact Hrun.
    + rewrite map_size_insert in Hsize.
      destruct (acc !! hash (get_commit_info format_date c));
        unfold id in Hsize; cbn [List.length]; lia.
    + intros k Hk. rewrite Hkeep.
      * apply lookup_insert_ne. apply (Hk c). left. reflexivity.
      * intros c' Hc'. apply Hk. right. exact Hc'.
Qed.

End Collaborators.

End SummariesFacts.

Import SummariesFacts.

(** X18.  [generate_summaries] keys its dictionary by the first seven
    characters of the commit hash: the entry found under the abbreviated
    hash of a commit is that of the last commit with this abbreviation, and
    the dictionary has at most as many entries as there are commits. *)
Theorem summaries_keep_the_last_commit_of_a_hash
        (create : string -> list (string * string) -> Z -> outcome (list (option string)))
        (format_date : Z -> string) (model : string) (max_tokens : Z)
        (before after : list commit) (c : commit) (l : log) :
  (forall c' e, In c' (before ++ c :: after) ->
                create model (messages_of (prompt_for c')) max_tokens = Raise e ->
                is_Exception e = true) ->
  (forall c', In c' after ->
              String.substring 0 7 (hexsha c') <> String.substring 0 7 (hexsha c)) ->
  exists (summaries : gmap string entry) (l' : log) (s : string),
    generate_summaries create format_date (before ++ c :: after) model max_tokens l
    = (Return summaries, l')
    /\ fst (summarize_commit create c model max_tokens l) = Return s
    /\ summaries !! String.substring 0 7 (hexsha c)
       = Some {| commit_info := get_commit_info format_date c; summary := s |}
    /\ size summaries <= List.length (before ++ c :: after).
Proof.
  intros Hexc Hlast. unfold generate_summaries. rewrite for_each_app.
  destruct (summaries_loop create format_date model max_tokens before ∅ l)
    as (acc1 & l1 & Hrun1 & Hsize1 & _).
  { intros c' e Hin. apply Hexc. apply in_or_app. left. exact Hin. }
  cbv zeta in Hrun1. rewrite Hrun1.
  destruct (summaries_loop create format_date model max_tokens (c :: after) acc1 l1)
    as (summaries & l' & Hrun & Hsize & _).
  { intros c' e Hin. apply Hexc. apply in_or_app. right. exact Hin. }
  cbv zeta in Hrun.
  destruct (summarize_commit_returns create c model max_tokens l1) as (s & l2 & Hs & _).
  { intros e. apply Hexc. apply in_or_app. right. left. reflexivity. }
  exists summaries, l', s. split; [exact Hrun |]. split; [| split].
  - rewrite (summarize_commit_log create c model max_tokens l l1), Hs. reflexivity.
  - cbn [for_each] in Hrun. unfold bind at 1 in Hrun. unfold bind at 1 in Hrun.
    rewrite Hs in Hrun. cbv beta iota in Hrun. unfold ret at 1 in Hrun.
    destruct (summaries_loop create format_date model max_tokens after
                (<[hash (get_commit_info format_date c)
                   := {| commit_info := get_commit_info format_date c; summary := s |}]> acc1)
                l2)
      as (m & l3 & Hrun3 & _ & Hkeep).
    { intros c' e Hin. apply Hexc. apply in_or_app. right. right. exact Hin. }
    cbv zeta in Hrun3. rewrite Hrun3 in Hrun. injection Hrun as <- <-.
    rewrite (Hkeep _ Hlast). apply lookup_insert_eq.
  - rewrite map_size_empty in Hsize1. rewrite length_app. cbn [List.length] in *. lia.
Qed.

Lemma summaries_keep_the_last_commit_of_a_hash_witness :
  let answer : string -> list (string * string) -> Z -> outcome (list (option string)) :=
    fun _ _ _ => Return [Some "ok"%string] in
  let c1 := {| hexsha := "0123456aaaaaaaaa"; message := "First";
               patches := []; committed_date := 0;
               author_name := "A"; author_email := "a@example.org" |} in
  let c2 := {| hexsha := "0123456bbbbbbbbb"; message := "Second";
               patches := []; committed_date := 1;
               author_name := "B"; author_email := "b@example.org" |} in
  exists (summaries : gmap string entry) (l' : log),
    generate_summaries answer (fun _ => "1970-01-01"%string) ([c1] ++ c2 :: []) "gpt-4" 300 []
    = (Return summaries, l')
    /\ (exists s, summaries !! "0123456"%string
                  = Some {| commit_info := get_commit_info (fun _ => "1970-01-01"%string) c2;
                            summary := s |})
    /\ size summaries <= 2.
Proof.
  intros answer c1 c2.
  destruct (summaries_keep_the_last_commit_of_a_hash
              answer (fun _ => "1970-01-01"%string) "gpt-4" 300 [c1] [] c2 [])
    as (summaries & l' & s & Hrun & _ & Hlook & Hsize).
  - intros c' e _ Hraise. discriminate Hraise.
  - intros c' [].
  - exists summaries, l'. split; [exact Hrun |]. split; [exists s; exact Hlook | exact Hsize].
Defined.

(** ** Statistics *)

From Stdlib Require Sorted.

Module StatisticsFacts.

Import Statistics.

(** *** Counting *)

Lemma bump_sum (k : string) (counts : list (string * nat)) :
  list_sum (map snd (bump k counts)) = S (list_sum (map snd counts)).
Proof.
  induction counts as [| [k' n] rest IH]; [reflexivity |].
  unfold list_sum in *.
  cbn [bump]. destruct (String.eqb k' k); cbn [map snd fold_right]; [lia |].
  rewrite IH. lia.
Qed.

Lemma bump_keys (k x : string) (counts : list (string * nat)) :
  In k (map fst (bump x counts)) <-> k = x \/ In k (map fst counts).
Proof.
  induction counts as [| [k' n] rest IH]; cbn [bump map fst In].
  - intuition congruence.
  - destruct (String.eqb_spec k' x) as [-> | Hne]; cbn [map fst In].
    + intuition congruence.
    + rewrite IH. intuition congruence.
Qed.

Lemma bump_NoDup (x : string) (counts : list (string * nat)) :
  List.NoDup (map fst counts) -> List.NoDup (map fst (bump x counts)).
Proof.
  induction counts as [| [k' n] rest IH]; intros Hnd; cbn [bump map fst].
  - constructor; [intros [] | constructor].
  - cbn [map fst] in Hnd. apply List.NoDup_cons_iff in Hnd as [Hk Hnd].
    destruct (String.eqb_spec k' x) as [-> | Hne]; cbn [map fst].
    + constructor; assumption.
    + constructor; [| apply IH; exact Hnd].
      rewrite bump_keys. intros [-> | Hin]; [congruence | contradiction].
Qed.

(** The count under a key, 0 when the key is absent. *)
Lemma bump_In (k x : string) (n : nat) (counts : list (string * nat)) :
  List.NoDup (map fst counts) ->
  In (k, n) (bump x counts)
  <-> (k <> x /\ In (k, n) counts)
      \/ (k = x /\ ((exists m, In (x, m) counts /\ n = S m)
                    \/ (~ In x (map fst counts) /\ n = 1%nat))).
Proof.
  induction counts as [| [k' m] rest IH]; intros Hnd; cbn [bump].
  - cbn [In map]. split.
    + intros [H | []]. injection H as <- <-. right. split; [reflexivity |].
      right. split; [intros [] | reflexivity].
    + intros [[_ []] | [-> [(m & [] & _) | [_ ->]]]]. left. reflexivity.
  - cbn [map fst] in Hnd. apply List.NoDup_cons_iff in Hnd as [Hk Hnd].
    destruct (String.eqb_spec k' x) as [-> | Hne].
    + cbn [In map fst]. split.
      * intros [H | Hin].
        -- injection H as <- <-. right. split; [reflexivity |]. left.
           exists m. split; [left; reflexivity | reflexivity].
        -- left. split; [| right; exact Hin].
           intros ->. apply Hk. apply (in_map fst) in Hin. exact Hin.
      * intros [[Hne [H | Hin]] | [-> [(m' & [H | Hin] & ->) | [Habs _]]]].
        -- injection H as -> _. congruence.
        -- right. exact Hin.
        -- injection H as ->. left. reflexivity.
        -- exfalso. apply Hk. apply (in_map fst) in Hin. exact Hin.
        -- exfalso. apply Habs. left. reflexivity.
    + cbn [In map fst]. rewrite (IH Hnd). split.
      * intros [H | [[Hkx Hin] | [-> Hx]]].
        -- injection H as <- <-. left. split; [exact Hne | left; reflexivity].
        -- left. split; [exact Hkx | right; exact Hin].
        -- right. split; [reflexivity |].
           destruct Hx as [(m' & Hin & ->) | [Habs ->]].
           ++ left. exists m'. split; [right; exact Hin | reflexivity].
           ++ right. split; [| reflexivity]. intros [H | H]; [congruence | contradiction].
      * intros [[Hkx [H | Hin]] | [-> [(m' & [H | Hin] & ->) | [Habs ->]]]].
        -- left. exact H.
        -- right. left. split; assumption.
        -- injection H as -> _. congruence.
        -- right. right. split; [reflexivity |]. left. exists m'. split; [exact Hin | reflexivity].
        -- right. right. split; [reflexivity |]. right. split; [| reflexivity].
           intros Hin. apply Habs. right. exact Hin.
Qed.

Lemma counted_bump (seen : list string) (x : string) (counts : list (string * nat)) :
  counted seen counts -> counted (seen ++ [x]) (bump x counts).
Proof.
  intros [Hnd Hcount]. split; [apply bump_NoDup; exact Hnd |].
  intros k n. rewrite (bump_In k x n counts Hnd), count_occ_app. cbn [count_occ].
  destruct (string_dec x k) as [<- | Hne].
  - split.
    + intros [[Habs _] | [_ [(m & Hin & ->) | [Habs ->]]]]; [congruence | |].
      * apply Hcount in Hin as [-> _]. split; lia.
      * assert (Hzero : count_occ string_dec seen x = 0%nat).
        { destruct (count_occ string_dec seen x) as [| c] eqn:Hc; [reflexivity |].
          exfalso. apply Habs.
          apply (in_map fst _ (x, S c)). apply Hcount. split; [congruence | lia]. }
        split; [lia | lia].
    + intros [-> _]. right. split; [reflexivity |].
      destruct (count_occ string_dec seen x) as [| c] eqn:Hc.
      * right. split; [| reflexivity]. intros Hin. apply in_map_iff in Hin as ([k m] & Hk & Hin).
        cbn [fst] in Hk. subst k. apply Hcount in Hin as [-> Hpos]. lia.
      * left. exists (S c). split; [apply Hcount; split; [congruence | lia] | lia].
  - rewrite Nat.add_0_r. split.
    + intros [[_ Hin] | [-> _]]; [apply Hcount; exact Hin | congruence].
    + intros H. left. split; [congruence | apply Hcount; exact H].
Qed.

Lemma Counter_counted (xs : list string) : counted xs (Counter xs).
Proof.
  unfold Counter.
  assert (Hgen : forall seen counts,
             counted seen counts ->
             counted (seen ++ xs) (fold_left (fun counts x => bump x counts) xs counts)).
  { induction xs as [| x xs IH]; intros seen counts Hc; cbn [fold_left].
    - rewrite app_nil_r. exact Hc.
    - replace (seen ++ x :: xs) with ((seen ++ [x]) ++ xs) by (rewrite <- app_assoc; reflexivity).
      apply IH. apply counted_bump. exact Hc. }
  apply (Hgen [] []). split; [constructor |].
  intros k n. cbn. split; [intros [] | intros [-> H]; lia].
Qed.

Lemma Counter_sum (xs : list string) :
  list_sum (map snd (Counter xs)) = List.length xs.
Proof.
  unfold Counter.
  assert (Hgen : forall counts,
             list_sum (map snd (fold_left (fun counts x => bump x counts) xs counts))
             = (list_sum (map snd counts) + List.length xs)%nat).
  { induction xs as [| x xs IH]; intros counts; cbn [fold_left List.length]; [lia |].
    rewrite IH, bump_sum. lia. }
  rewrite Hgen. cbn. reflexivity.
Qed.

Lemma Counter_keys (xs : list string) (k : string) :
  In k (map fst (Counter xs)) <-> In k xs.
Proof.
  destruct (Counter_counted xs) as [_ Hcount]. split.
  - intros Hin. apply in_map_iff in Hin as ([k' n] & Hk & Hin). cbn [fst] in Hk. subst k'.
    apply Hcount in Hin as [-> Hpos]. apply (count_occ_In string_dec). exact Hpos.
  - intros Hin. apply (count_occ_In string_dec) in Hin.
    apply (in_map fst _ (k, count_occ string_dec xs k)). apply Hcount. split; [reflexivity | lia].
Qed.

Lemma Counter_length (xs : list string) :
  List.length (Counter xs) = List.length (nodup string_dec xs).
Proof.
  rewrite <- (length_map fst (Counter xs)).
  apply Permutation_length, Permutation.NoDup_Permutation.
  - apply (proj1 (Counter_counted xs)).
  - apply List.NoDup_nodup.
  - intros k. rewrite Counter_keys, nodup_In. reflexivity.
Qed.

(** *** Sorting by count *)

Lemma place_perm (x : string * nat) (sorted : list (string * nat)) :
  Permutation (place x sorted) (x :: sorted).
Proof.
  induction sorted as [| y rest IH]; cbn [place]; [reflexivity |].
  destruct (snd y <? snd x)%nat; [reflexivity |].
  rewrite IH. apply perm_swap.
Qed.

Lemma place_sorted (x : string * nat) (sorted : list (string * nat)) :
  Sorted.StronglySorted not_fewer sorted -> Sorted.StronglySorted not_fewer (place x sorted).
Proof.
  induction sorted as [| y rest IH]; intros Hs; cbn [place].
  - constructor; [constructor | constructor].
  - apply Sorted.StronglySorted_inv in Hs as [Hrest Hy].
    destruct (snd y <? snd x)%nat eqn:Hlt.
    + apply Nat.ltb_lt in Hlt. constructor; [constructor; assumption |].
      constructor; [unfold not_fewer; lia |].
      rewrite List.Forall_forall in Hy |- *. intros z Hz. specialize (Hy z Hz).
      unfold not_fewer in *. lia.
    + apply Nat.ltb_ge in Hlt. constructor; [apply IH; exact Hrest |].
      rewrite List.Forall_forall in Hy |- *. intros z Hz.
      apply (Permutation_in _ (place_perm x rest)) in Hz as [<- | Hz];
        [exact Hlt | apply Hy; exact Hz].
Qed.

Lemma by_count_spec (counts : list (string * nat)) :
  Permutation (by_count counts) counts /\ Sorted.StronglySorted not_fewer (by_count counts).
Proof.
  unfold by_count.
  assert (Hgen : forall sorted,
             Sorted.StronglySorted not_fewer sorted ->
             Permutation (fold_left (fun sorted x => place x sorted) counts sorted)
                         (sorted ++ counts)
             /\ Sorted.StronglySorted not_fewer
                  (fold_left (fun sorted x => place x sorted) counts sorted)).
  { induction counts as [| x counts IH]; intros sorted Hs; cbn [fold_left].
    - rewrite app_nil_r. split; [reflexivity | exact Hs].
    - destruct (IH (place x sorted) (place_sorted x sorted Hs)) as [Hp Hsorted].
      split; [| exact Hsorted].
      rewrite Hp, place_perm. cbn [app]. apply Permutation_middle. }
  apply (Hgen []). constructor.
Qed.

Lemma sorted_head_tail (n : nat) (l : list (string * nat)) :
  Sorted.StronglySorted not_fewer l ->
  forall a b, In a (firstn n l) -> In b (skipn n l) -> not_fewer a b.
Proof.
  revert n. induction l as [| x l IH]; intros n Hs a b Ha Hb.
  - rewrite firstn_nil in Ha. destruct Ha.
  - apply Sorted.StronglySorted_inv in Hs as [Hl Hx]. destruct n as [| n]; [destruct Ha |].
    cbn [firstn skipn] in Ha, Hb. destruct Ha as [<- | Ha].
    + rewrite List.Forall_forall in Hx. apply Hx.
      rewrite <- (firstn_skipn n l). apply in_or_app. right. exact Hb.
    + apply (IH n Hl a b Ha Hb).
Qed.

(** *** The first and the last date *)

Lemma ltb_leb (a b : string) : String.ltb a b = true -> String.leb a b = true.
Proof. unfold String.ltb, String.leb. destruct (String.compare a b); congruence. Qed.

Lemma not_ltb_leb (a b : string) : String.ltb a b = false -> String.leb b a = true.
Proof.
  unfold String.ltb, String.leb. rewrite (String.compare_antisym b a).
  destruct (String.compare a b); cbn; congruence.
Qed.

Lemma leb_refl (a : string) : String.leb a a = true.
Proof. destruct (String.leb_total a a); assumption. Qed.

Lemma leb_trans (a b c : string) :
  String.leb a b = true -> String.leb b c = true -> String.leb a c = true.
Proof.
  intros H1 H2. apply Is_true_true.
  change (String.le a c). transitivity b; apply Is_true_true; assumption.
Qed.

Lemma str_min_spec (xs : list string) (lo : string) :
  str_min xs = Return lo ->
  In lo xs /\ forall d, In d xs -> String.leb lo d = true.
Proof.
  destruct xs as [| x rest]; [discriminate |]. cbn [str_min]. intros H. injection H as <-.
  assert (Hgen : forall m seen,
             In m seen -> (forall d, In d seen -> String.leb m d = true) ->
             let r := fold_left (fun m y => if String.ltb y m then y else m) rest m in
             In r (seen ++ rest) /\ forall d, In d (seen ++ rest) -> String.leb r d = true).
  { induction rest as [| y rest IH]; intros m seen Hin Hle; cbn [fold_left].
    - rewrite app_nil_r. split; assumption.
    - replace (seen ++ y :: rest) with ((seen ++ [y]) ++ rest)
        by (rewrite <- app_assoc; reflexivity).
      apply IH.
      + apply in_or_app. destruct (String.ltb y m); [right; left; reflexivity | left; exact Hin].
      + intros d Hd. apply in_app_or in Hd as [Hd | [<- | []]].
        * destruct (String.ltb y m) eqn:Hlt; [| apply Hle; exact Hd].
          apply (leb_trans y m d); [apply ltb_leb; exact Hlt | apply Hle; exact Hd].
        * destruct (String.ltb y m) eqn:Hlt; [apply leb_refl | apply not_ltb_leb; exact Hlt]. }
  apply (Hgen x [x]); [left; reflexivity |].
  intros d [<- | []]. apply leb_refl.
Qed.

Lemma str_max_spec (xs : list string) (hi : string) :
  str_max xs = Return hi ->
  In hi xs /\ forall d, In d xs -> String.leb d hi = true.
Proof.
  destruct xs as [| x rest]; [discriminate |]. cbn [str_max]. intros H. injection H as <-.
  assert (Hgen : forall m seen,
             In m seen -> (forall d, In d seen -> String.leb d m = true) ->
             let r := fold_left (fun m y => if String.ltb m y then y else m) rest m in
             In r (seen ++ rest) /\ forall d, In d (seen ++ rest) -> String.leb d r = true).
  { induction rest as [| y rest IH]; intros m seen Hin Hle; cbn [fold_left].
    - rewrite app_nil_r. split; assumption.
    - replace (seen ++ y :: rest) with ((seen ++ [y]) ++ rest)
        by (rewrite <- app_assoc; reflexivity).
      apply IH.
      + apply in_or_app. destruct (String.ltb m y); [right; left; reflexivity | left; exact Hin].
      + intros d Hd. apply in_app_or in Hd as [Hd | [<- | []]].
        * destruct (String.ltb m y) eqn:Hlt; [| apply Hle; exact Hd].
          apply (leb_trans d m y); [apply Hle; exact Hd | apply ltb_leb; exact Hlt].
        * destruct (String.ltb m y) eqn:Hlt; [apply leb_refl | apply not_ltb_leb; exact Hlt]. }
  apply (Hgen x [x]); [left; reflexivity |].
  intros d [<- | []]. apply leb_refl.
Qed.

(** *** Reading the dates *)

Lemma collect_dates (changelog : list dict) :
  (exists dates,
      collect (fun entry => getitem entry "date") changelog = Return dates
      /\ map (dict_get "date") changelog = map Some dates)
  \/ (collect (fun entry => getitem entry "date") changelog = Raise KeyError
      /\ exists entry, In entry changelog /\ dict_get "date" entry = None).
Proof.
  induction changelog as [| entry rest IH]; [left; exists []; split; reflexivity |].
  cbn [collect map]. unfold getitem at 1 3.
  destruct (dict_get "date" entry) as [d |] eqn:Hd.
  - destruct IH as [(dates & -> & Hmap) | (-> & e & Hin & He)].
    + left. exists (d :: dates). split; [reflexivity |]. cbn [map]. rewrite Hmap. reflexivity.
    + right. split; [reflexivity |]. exists e. split; [right; exact Hin | exact He].
  - right. split; [reflexivity |]. exists entry. split; [left; reflexivity | exact Hd].
Qed.

(** *** The statistics that are returned *)

Abbreviation author_of := (fun entry : dict => get_default entry "author" "Unknown").

Lemma calculate_statistics_returns (changelog : list dict) (model : string) (st : statistics) :
  calculate_statistics changelog model = Return st ->
  (changelog = []
   /\ st = {| total_commits := 0; contributors := 0; date_range := "N/A";
              model_used := model; top_contributors := None; commits_by_date := None |})
  \/ (exists dates lo hi,
         changelog <> []
         /\ map (dict_get "date") changelog = map Some dates
         /\ str_min dates = Return lo
         /\ str_max dates = Return hi
         /\ st = {| total_commits := List.length changelog;
                    contributors := List.length (Counter (map author_of changelog));
                    date_range := lo +:+ " to " +:+ hi;
                    model_used := model;
                    top_contributors := Some (most_common 5 (Counter (map author_of changelog)));
                    commits_by_date := Some (Counter dates) |}).
Proof.
  destruct changelog as [| entry rest].
  - intros H. injection H as <-. left. split; reflexivity.
  - unfold calculate_statistics.
    destruct (collect_dates (entry :: rest)) as [(dates & -> & Hmap) | (-> & _)];
      [| discriminate].
    destruct (str_min dates) as [lo | e] eqn:Hlo; [| discriminate].
    destruct (str_max dates) as [hi | e] eqn:Hhi; [| discriminate].
    intros H. injection H as <-. right. exists dates, lo, hi.
    split; [discriminate |]. repeat split; assumption.
Qed.

Lemma dated_entries (changelog : list dict) (dates : list string) :
  map (dict_get "date") changelog = map Some dates ->
  forall d,
    count_occ string_dec dates d
    = List.length (List.filter
                     (fun entry => match dict_get "date" entry with
                                   | Some d' => String.eqb d' d
                                   | None => false
                                   end) changelog).
Proof.
  revert dates. induction changelog as [| entry rest IH]; intros [| d0 dates] Hmap d;
    try discriminate; [reflexivity |].
  cbn [map] in Hmap. injection Hmap as Hd Hmap.
  cbn [count_occ List.filter]. rewrite Hd.
  destruct (string_dec d0 d) as [-> | Hne].
  - rewrite String.eqb_refl. cbn [List.length]. f_equal. apply IH. exact Hmap.
  - rewrite (proj2 (String.eqb_neq d0 d) Hne). apply IH. exact Hmap.
Qed.

Lemma dated_In (changelog : list dict) (dates : list string) :
  map (dict_get "date") changelog = map Some dates ->
  forall d, In d dates <-> exists entry, In entry changelog /\ dict_get "date" entry = Some d.
Proof.
  intros Hmap d. split.
  - intros Hd. apply (in_map Some) in Hd. rewrite <- Hmap in Hd.
    apply in_map_iff in Hd as (entry & He & Hin). eauto.
  - intros (entry & Hin & He). apply (in_map (dict_get "date")) in Hin.
    rewrite Hmap, He in Hin. apply in_map_iff in Hin as (d' & Hd' & Hin).
    injection Hd' as ->. exact Hin.
Qed.

End StatisticsFacts.

Import Statistics StatisticsFacts.

(** X19.  The statistics count every commit once and every author once: the
    total is the number of entries, the contributors are the distinct
    authors (an entry without author counting as [Unknown]), at most as many
    as the commits and at least one when there is a commit. *)
Theorem statistics_count_commits_and_contributors
        (changelog : list dict) (model : string) (st : statistics) :
  calculate_statistics changelog model = Return st ->
  total_commits st = List.length changelog
  /\ model_used st = model
  /\ contributors st
     = List.length (nodup string_dec
                      (map (fun entry => get_default entry "author" "Unknown") changelog))
  /\ (contributors st <= total_commits st)%nat
  /\ (changelog <> [] -> (1 <= contributors st)%nat).
Proof.
  intros Hst.
  destruct (calculate_statistics_returns changelog model st Hst)
    as [[-> ->] | (dates & lo & hi & Hne & _ & _ & _ & ->)];
    cbn [total_commits model_used contributors].
  - split; [reflexivity |]. split; [reflexivity |]. split; [reflexivity |].
    split; [cbn; lia | congruence].
  - rewrite Counter_length.
    split; [reflexivity |]. split; [reflexivity |]. split; [reflexivity |]. split.
    + rewrite <- (length_map author_of changelog).
      apply NoDup_incl_length; [apply List.NoDup_nodup |].
      intros a Ha. apply nodup_In in Ha. exact Ha.
    + intros _. destruct changelog as [| entry rest]; [congruence |].
      assert (Hin : In (author_of entry) (nodup string_dec (map author_of (entry :: rest))))
        by (apply nodup_In; left; reflexivity).
      destruct (nodup string_dec (map author_of (entry :: rest))); [destruct Hin |].
      cbn [List.length]. lia.
Qed.

Lemma statistics_count_commits_and_contributors_witness :
  exists st : statistics,
    calculate_statistics
      [[("date", "2024-01-02"); ("author", "Ann")];
       [("date", "2024-01-01")];
       [("date", "2024-01-02"); ("author", "Ann")]]%string "gpt-4" = Return st
    /\ total_commits st = 3%nat /\ contributors st = 2%nat.
Proof.
  eexists. split; [reflexivity |].
  destruct (statistics_count_commits_and_contributors
              [[("date", "2024-01-02"); ("author", "Ann")];
            [("date", "2024-01-01")];
            [("date", "2024-01-02"); ("author", "Ann")]]%string "gpt-4" _ eq_refl) as (Ht & _ & Hc & _).
  split; [exact Ht | exact Hc].
Defined.

(** X20.  [calculate_statistics] raises exactly when an entry has no date,
    and then a [KeyError]; an entry without author is no error. *)
Theorem statistics_need_a_date_in_every_entry (changelog : list dict) (model : string) :
  (calculate_statistics changelog model = Raise KeyError
   <-> exists entry, In entry changelog /\ dict_get "date" entry = None)
  /\ (forall e, calculate_statistics changelog model = Raise e -> e = KeyError).
Proof.
  assert (Hcases :
            (exists st, calculate_statistics changelog model = Return st
                        /\ forall entry, In entry changelog -> dict_get "date" entry <> None)
            \/ (calculate_statistics changelog model = Raise KeyError
                /\ exists entry, In entry changelog /\ dict_get "date" entry = None)).
  { destruct changelog as [| entry rest].
    - left. eexists. split; [reflexivity | intros e []].
    - unfold calculate_statistics.
      destruct (collect_dates (entry :: rest)) as [(dates & -> & Hmap) | (-> & Hmiss)].
      + left.
        destruct dates as [| d dates]; [discriminate |]. cbn [str_min str_max].
        eexists. split; [reflexivity |].
        intros e He Hnone. apply (in_map (dict_get "date")) in He.
        rewrite Hmap, Hnone in He. apply in_map_iff in He as (d' & Hd' & _). discriminate.
      + right. split; [reflexivity | exact Hmiss]. }
  destruct Hcases as [(st & Hst & Hall) | [Hraise Hmiss]].
  - rewrite Hst. split; [split |].
    + discriminate.
    + intros (entry & Hin & Hnone). exfalso. exact (Hall entry Hin Hnone).
    + discriminate.
  - rewrite Hraise. split; [split; [intros _; exact Hmiss | reflexivity] |].
    intros e H. injection H as <-. reflexivity.
Qed.

Lemma statistics_need_a_date_in_every_entry_witness :
  calculate_statistics
    [[("date", "2024-01-02"); ("author", "Ann")]; [("author", "Bob")]]%string "gpt-4"
  = Raise KeyError.
Proof.
  apply (proj1 (statistics_need_a_date_in_every_entry
                  [[("date", "2024-01-02"); ("author", "Ann")]; [("author", "Bob")]]%string
                  "gpt-4")).
  exists [("author", "Bob")]%string. split; [right; left; reflexivity | reflexivity].
Defined.

(** X21.  [commits_by_date] lists every date once, with the number of
    entries of that date; the numbers add up to the total. *)
Theorem commits_by_date_counts_every_entry
        (changelog : list dict) (model : string) (st : statistics)
        (counts : list (string * nat)) :
  calculate_statistics changelog model = Return st ->
  commits_by_date st = Some counts ->
  list_sum (map snd counts) = total_commits st
  /\ List.NoDup (map fst counts)
  /\ (forall d n,
         In (d, n) counts
         <-> ((0 < n)%nat
              /\ n = List.length
                       (List.filter
                          (fun entry => match dict_get "date" entry with
                                        | Some d' => String.eqb d' d
                                        | None => false
                                        end) changelog))).
Proof.
  intros Hst Hcounts.
  destruct (calculate_statistics_returns changelog model st Hst)
    as [[-> ->] | (dates & lo & hi & Hne & Hmap & _ & _ & ->)];
    cbn [commits_by_date total_commits] in *; [discriminate |].
  injection Hcounts as <-.
  destruct (Counter_counted dates) as [Hnd Hcount].
  split; [| split; [exact Hnd |]].
  - rewrite Counter_sum. rewrite <- (length_map Some dates), <- Hmap, length_map. reflexivity.
  - intros d n. rewrite Hcount, (dated_entries changelog dates Hmap d). tauto.
Qed.

Lemma commits_by_date_counts_every_entry_witness :
  exists (st : statistics) (counts : list (string * nat)),
    calculate_statistics
      [[("date", "2024-01-02"); ("author", "Ann")];
       [("date", "2024-01-01")];
       [("date", "2024-01-02"); ("author", "Ann")]]%string "gpt-4" = Return st
    /\ commits_by_date st = Some counts
    /\ list_sum (map snd counts) = total_commits st.
Proof.
  eexists. eexists. split; [reflexivity |]. split; [reflexivity |].
  exact (proj1 (commits_by_date_counts_every_entry
           [[("date", "2024-01-02"); ("author", "Ann")];
            [("date", "2024-01-01")];
            [("date", "2024-01-02"); ("author", "Ann")]]%string "gpt-4" _ _ eq_refl eq_refl)).
Defined.

(** X22.  The date range names the smallest and the largest date of the
    changelog, in the order of strings: both are dates of entries, and the
    date of every entry lies between them. *)
Theorem date_range_spans_the_dates
        (changelog : list dict) (model : string) (st : statistics) :
  changelog <> [] ->
  calculate_statistics changelog model = Return st ->
  exists lo hi : string,
    date_range st = lo +:+ " to " +:+ hi
    /\ (exists entry, In entry changelog /\ dict_get "date" entry = Some lo)
    /\ (exists entry, In entry changelog /\ dict_get "date" entry = Some hi)
    /\ (forall entry d,
           In entry changelog -> dict_get "date" entry = Some d ->
           String.leb lo d = true /\ String.leb d hi = true).
Proof.
  intros Hne Hst.
  destruct (calculate_statistics_returns changelog model st Hst)
    as [[-> _] | (dates & lo & hi & _ & Hmap & Hlo & Hhi & ->)]; [congruence |].
  destruct (str_min_spec dates lo Hlo) as [Hlo_in Hlo_le].
  destruct (str_max_spec dates hi Hhi) as [Hhi_in Hhi_le].
  exists lo, hi. split; [reflexivity |].
  split; [apply (dated_In changelog dates Hmap); exact Hlo_in |].
  split; [apply (dated_In changelog dates Hmap); exact Hhi_in |].
  intros entry d Hin Hd.
  assert (Hd_in : In d dates) by (apply (dated_In changelog dates Hmap); eauto).
  split; [apply Hlo_le | apply Hhi_le]; exact Hd_in.
Qed.

Lemma date_range_spans_the_dates_witness :
  exists st : statistics,
    calculate_statistics
      [[("date", "2024-01-02"); ("author", "Ann")];
       [("date", "2024-01-01")];
       [("date", "2024-01-03"); ("author", "Ann")]]%string "gpt-4" = Return st
    /\ exists lo hi : string, date_range st = lo +:+ " to " +:+ hi.
Proof.
  eexists. split; [reflexivity |].
  destruct (date_range_spans_the_dates
              [[("date", "2024-01-02"); ("author", "Ann")];
            [("date", "2024-01-01")];
            [("date", "2024-01-03"); ("author", "Ann")]]%string "gpt-4" _ ltac:(discriminate) eq_refl)
    as (lo & hi & Hrange & _).
  exists lo, hi. exact Hrange.
Defined.

(** X23.  [top_contributors] lists at most five authors, each once, with
    the number of its commits, by decreasing number; no author left out has
    more commits than a listed one. *)
Theorem top_contributors_are_the_most_active
        (changelog : list dict) (model : string) (st : statistics)
        (top : list (string * nat)) :
  calculate_statistics changelog model = Return st ->
  top_contributors st = Some top ->
  let authors := map (fun entry => get_default entry "author" "Unknown") changelog in
  List.length top = Nat.min 5 (contributors st)
  /\ Sorted.StronglySorted not_fewer top
  /\ List.NoDup (map fst top)
  /\ (forall a n, In (a, n) top -> n = count_occ string_dec authors a /\ (0 < n)%nat)
  /\ (forall a b n,
         In (a, n) top -> In b authors -> ~ In b (map fst top) ->
         (count_occ string_dec authors b <= n)%nat).
Proof.
  intros Hst Htop authors.
  destruct (calculate_statistics_returns changelog model st Hst)
    as [[-> ->] | (dates & lo & hi & _ & _ & _ & _ & ->)];
    cbn [top_contributors contributors] in *; [discriminate |].
  injection Htop as <-. fold authors. unfold most_common.
  destruct (by_count_spec (Counter authors)) as [Hperm Hsorted].
  destruct (Counter_counted authors) as [Hnd Hcount].
  assert (Hsplit : firstn 5 (by_count (Counter authors)) ++ skipn 5 (by_count (Counter authors))
                   = by_count (Counter authors)) by apply firstn_skipn.
  assert (Hnd_sorted : List.NoDup (map fst (by_count (Counter authors)))).
  { apply (Permutation_NoDup (l := map fst (Counter authors))); [| exact Hnd].
    apply Permutation_map. symmetry. exact Hperm. }
  split; [| split; [| split; [| split]]].
  - rewrite length_firstn. rewrite (Permutation_length Hperm). reflexivity.
  - rewrite <- Hsplit in Hsorted. clear - Hsorted.
    induction (firstn 5 (by_count (Counter authors))) as [| x l IH]; [constructor |].
    cbn [app] in Hsorted. apply Sorted.StronglySorted_inv in Hsorted as [Hl Hx].
    constructor; [apply IH; exact Hl |].
    rewrite List.Forall_forall in Hx |- *. intros y Hy. apply Hx. apply in_or_app. left. exact Hy.
  - rewrite <- Hsplit, map_app in Hnd_sorted. apply NoDup_app_remove_r in Hnd_sorted.
    exact Hnd_sorted.
  - intros a n Hin. apply Hcount. apply (Permutation_in _ Hperm).
    rewrite <- Hsplit. apply in_or_app. left. exact Hin.
  - intros a b n Ha Hb Hout.
    assert (Hb_in : In (b, count_occ string_dec authors b) (by_count (Counter authors))).
    { apply (Permutation_in _ (Permutation_sym Hperm)). apply Hcount.
      split; [reflexivity |]. apply (count_occ_In string_dec). exact Hb. }
    rewrite <- Hsplit in Hb_in. apply in_app_or in Hb_in as [Hb_in | Hb_in].
    + exfalso. apply Hout. apply (in_map fst) in Hb_in. exact Hb_in.
    + apply (sorted_head_tail 5 _ Hsorted (a, n) _ Ha Hb_in).
Qed.

Lemma top_contributors_are_the_most_active_witness :
  exists (st : statistics) (top : list (string * nat)),
    calculate_statistics
      [[("date", "2024-01-02"); ("author", "Ann")];
       [("date", "2024-01-01")];
       [("date", "2024-01-02"); ("author", "Ann")]]%string "gpt-4" = Return st
    /\ top_contributors st = Some top
    /\ List.length top = Nat.min 5 (contributors st).
Proof.
  eexists. eexists. split; [reflexivity |]. split; [reflexivity |].
  exact (proj1 (top_contributors_are_the_most_active
           [[("date", "2024-01-02"); ("author", "Ann")];
            [("date", "2024-01-01")];
            [("date", "2024-01-02"); ("author", "Ann")]]%string "gpt-4" _ _ eq_refl eq_refl)).
Defined.

(** ** The Markdown formatter *)

Module MarkdownFacts.

Import MarkdownFormatter.

Lemma entry_lines_cases (current_date : option string) (entry : dict) :
  (complete entry /\ exists d added, entry_lines current_date entry = Return (d, added))
  \/ (~ complete entry /\ entry_lines current_date entry = Raise KeyError).
Proof.
  unfold entry_lines, complete, getitem.
  destruct (dict_get "date" entry) as [d |];
    [| right; split; [intros (H & _); congruence | reflexivity]].
  destruct (dict_get "hash" entry) as [h |];
    [| right; split; [intros (_ & H & _); congruence | reflexivity]].
  destruct (dict_get "message" entry) as [m |];
    [| right; split; [intros (_ & _ & H & _); congruence | reflexivity]].
  destruct (dict_get "summary" entry) as [sm |];
    [| right; split; [intros (_ & _ & _ & H); congruence | reflexivity]].
  left. split; [repeat split; discriminate | eauto].
Qed.

Lemma entries_lines_cases (changelog : list dict) :
  forall (current_date : option string) (lines : list string),
    (Forall complete changelog
     /\ exists out, entries_lines current_date changelog lines = Return out)
    \/ (~ Forall complete changelog
        /\ entries_lines current_date changelog lines = Raise KeyError).
Proof.
  induction changelog as [| entry rest IH]; intros current_date lines.
  - left. split; [constructor | eexists; reflexivity].
  - cbn [entries_lines].
    destruct (entry_lines_cases current_date entry) as [(Hc & d & added & ->) | (Hn & ->)].
    + destruct (IH d (lines ++ added)) as [(Hall & out & ->) | (Hn & ->)].
      * left. split; [constructor; assumption | eexists; reflexivity].
      * right. split; [| reflexivity]. intros Hall. apply Hn.
        apply List.Forall_inv_tail in Hall. exact Hall.
    + right. split; [| reflexivity]. intros Hall. apply Hn.
      apply List.Forall_inv in Hall. exact Hall.
Qed.

Lemma format_cases (changelog : list dict) (stats : option dict) :
  (Forall complete changelog /\ exists text, format changelog stats = Return text)
  \/ (~ Forall complete changelog /\ format changelog stats = Raise KeyError).
Proof.
  unfold format.
  destruct (entries_lines_cases changelog None
              ([("# Changelog" +:+ APICache.newline)%string] ++ stats_lines stats))
    as [(Hall & out & ->) | (Hn & ->)].
  - left. split; [exact Hall | eexists; reflexivity].
  - right. split; [exact Hn | reflexivity].
Qed.

Lemma entry_dict_complete (en : Summarizer.entry) : complete (entry_dict en).
Proof. repeat split; discriminate. Qed.

Lemma entry_dict_date (en : Summarizer.entry) :
  Statistics.dict_get "date" (entry_dict en) = Some (Summarizer.date (Summarizer.commit_info en)).
Proof. reflexivity. Qed.

Lemma changelog_entries_length
      (create : string -> list (string * string) -> Z -> outcome (list (option string)))
      (format_date : Z -> string) (model : string) (max_tokens : Z)
      (commits : list commit) :
  forall (changelog out : list Summarizer.entry) (l l' : log),
    for_each commits
      (fun c changelog =>
         let i := get_commit_info format_date c in
         (s <- summarize_commit create c model max_tokens ;;
          ret (changelog ++ [ {| commit_info := i; summary := s |} ]))%io)
      changelog l
    = (Return out, l') ->
    List.length out = (List.length changelog + List.length commits)%nat.
Proof.
  induction commits as [| c rest IH]; intros changelog out l l' Hrun.
  - cbn in Hrun. injection Hrun as <- _. cbn [List.length]. lia.
  - cbn [for_each] in Hrun. unfold bind at 1 in Hrun. cbv zeta in Hrun.
    unfold bind at 1 in Hrun.
    destruct (summarize_commit create c model max_tokens l) as [[s | e] l1];
      [| discriminate].
    unfold ret at 1 in Hrun. apply IH in Hrun.
    rewrite Hrun, length_app. cbn [List.length]. lia.
Qed.

End MarkdownFacts.

Import MarkdownFormatter MarkdownFacts.

(** X24.  The Markdown formatter raises exactly when an entry lacks one of
    the keys [date], [hash], [message] and [summary], and then a [KeyError];
    an entry without [author] is rendered. *)
Theorem markdown_needs_four_keys_in_every_entry
        (changelog : list dict) (stats : option dict) :
  (format changelog stats = Raise KeyError
   <-> exists entry,
         In entry changelog
         /\ (dict_get "date" entry = None \/ dict_get "hash" entry = None
             \/ dict_get "message" entry = None \/ dict_get "summary" entry = None))
  /\ (forall e, format changelog stats = Raise e -> e = KeyError).
Proof.
  assert (Hiff : ~ Forall complete changelog
                 <-> exists entry,
                       In entry changelog
                       /\ (dict_get "date" entry = None \/ dict_get "hash" entry = None
                           \/ dict_get "message" entry = None
                           \/ dict_get "summary" entry = None)).
  { split.
    - intros Hn. induction changelog as [| entry rest IH]; [exfalso; apply Hn; constructor |].
      assert (Hdec : complete entry \/ (dict_get "date" entry = None
                                         \/ dict_get "hash" entry = None
                                         \/ dict_get "message" entry = None
                                         \/ dict_get "summary" entry = None)).
      { unfold complete.
        destruct (dict_get "date" entry); [| right; left; reflexivity].
        destruct (dict_get "hash" entry); [| right; right; left; reflexivity].
        destruct (dict_get "message" entry); [| right; right; right; left; reflexivity].
        destruct (dict_get "summary" entry); [| right; right; right; right; reflexivity].
        left. repeat split; discriminate. }
      destruct Hdec as [Hc | Hmiss].
      + destruct IH as (e & Hin & He).
        * intros Hall. apply Hn. constructor; assumption.
        * exists e. split; [right; exact Hin | exact He].
      + exists entry. split; [left; reflexivity | exact Hmiss].
    - intros (entry & Hin & Hmiss) Hall. rewrite List.Forall_forall in Hall.
      destruct (Hall entry Hin) as (Hd & Hh & Hm & Hs).
      destruct Hmiss as [H | [H | [H | H]]]; congruence. }
  destruct (format_cases changelog stats) as [(Hall & text & ->) | (Hn & ->)].
  - split; [split |].
    + discriminate.
    + intros Hmiss. exfalso. apply Hiff in Hmiss. exact (Hmiss Hall).
    + discriminate.
  - split; [split; [intros _; apply Hiff; exact Hn | reflexivity] |].
    intros e H. injection H as <-. reflexivity.
Qed.

Lemma markdown_needs_four_keys_in_every_entry_witness :
  format [[("date", "2024-01-02"); ("hash", "0123456"); ("message", "Fix parser")]]%string None
  = Raise KeyError.
Proof.
  apply (proj1 (markdown_needs_four_keys_in_every_entry
                  [[("date", "2024-01-02"); ("hash", "0123456");
                    ("message", "Fix parser")]]%string None)).
  eexists. split; [left; reflexivity |]. right. right. right. reflexivity.
Defined.

(** X25.  The changelog [generate_changelog] builds can always be counted
    and rendered: on its entries [calculate_statistics] returns, with one
    commit counted per commit read, and the Markdown formatter returns a
    text, whatever the statistics passed to it. *)
Theorem built_changelog_is_counted_and_rendered
        (create : string -> list (string * string) -> Z -> outcome (list (option string)))
        (format_date : Z -> string) (commits : list commit) (model : string)
        (max_tokens : Z) (l l' : log) (entries : list Summarizer.entry) :
  changelog_entries create format_date commits model max_tokens l = (Return entries, l') ->
  (exists st : statistics,
      calculate_statistics (map entry_dict entries) model = Return st
      /\ total_commits st = List.length commits)
  /\ (forall stats : option dict,
        exists text : string, format (map entry_dict entries) stats = Return text).
Proof.
  intros Hrun.
  apply (changelog_entries_length create format_date model max_tokens commits [] entries l l')
    in Hrun.
  cbn [List.length Nat.add] in Hrun.
  split.
  - destruct (calculate_statistics (map entry_dict entries) model) as [st | e] eqn:Hst.
    + exists st. split; [reflexivity |].
      destruct (calculate_statistics_returns _ _ _ Hst)
        as [[Hnil ->] | (dates & lo & hi & _ & _ & _ & _ & ->)]; cbn [total_commits].
      * rewrite <- Hrun. apply (f_equal (@List.length _)) in Hnil.
        rewrite length_map in Hnil. cbn in Hnil. lia.
      * rewrite length_map. exact Hrun.
    + exfalso. destruct (map entry_dict entries) as [| d0 ds] eqn:Hmap; [discriminate |].
      unfold calculate_statistics in Hst.
      destruct (collect_dates (d0 :: ds)) as [(dates & Hc & Hm) | (_ & en & Hin & Hnone)].
      * rewrite Hc in Hst. destruct dates as [| d dates]; [discriminate |].
        cbn [str_min str_max] in Hst. discriminate.
      * rewrite <- Hmap in Hin. apply in_map_iff in Hin as (en0 & <- & _).
        rewrite entry_dict_date in Hnone. discriminate.
  - intros stats.
    destruct (format_cases (map entry_dict entries) stats) as [(_ & Htext) | (Hn & _)];
      [exact Htext |].
    exfalso. apply Hn. apply List.Forall_forall. intros d Hin.
    apply in_map_iff in Hin as (en & <- & _). apply entry_dict_complete.
Qed.

Lemma built_changelog_is_counted_and_rendered_witness :
  let quota_exhausted : string -> list (string * string) -> Z -> outcome (list (option string)) :=
    fun _ _ _ => Raise RateLimitError in
  let c1 := {| hexsha := "0123456789abcdef"; message := "Fix parser ";
               patches := ["+ a"; "- b"]; committed_date := 0;
               author_name := "A"; author_email := "a@example.org" |} in
  let entries := [ {| commit_info := get_commit_info (fun _ => "1970-01-01") c1;
                      summary := sentinel |} ]%string in
  changelog_entries quota_exhausted (fun _ => "1970-01-01"%string) [c1] "gpt-4" 100 []
  = (Return entries, [("0123456", RateLimitError)]%string)
  /\ exists text : string, format (map entry_dict entries) None = Return text.
Proof.
  intros quota_exhausted c1 entries.
  assert (Hrun : changelog_entries quota_exhausted (fun _ => "1970-01-01"%string) [c1]
                                   "gpt-4" 100 []
                 = (Return entries, [("0123456", RateLimitError)]%string))
    by (vm_compute; reflexivity).
  split; [exact Hrun |].
  exact (proj2 (built_changelog_is_counted_and_rendered
                  quota_exhausted (fun _ => "1970-01-01"%string) [c1] "gpt-4" 100 []
                  [("0123456", RateLimitError)]%string entries Hrun) None).
Defined.
